(** * ProductPro: a shallow embedding of [src/ProductPro.tsx]

    The page is one React component with a handful of pure helpers.  The
    helpers become Rocq functions, the component's [useState] cells become
    a record, the browser (local storage, clock, font metrics, the ZIP
    library, downloads) becomes an explicit [World], and every handler is
    a computation in a small state-and-exception monad over both.

    A handler runs from start to finish as one step.  The failures are
    the ones the source raises or awaits, and the write to local
    storage: no picture, the quota used up, a file that cannot be read,
    a picture that does not decode, the ZIP library failing, a store
    that refuses the item.  Reading local storage does not throw.  The
    count of the rate limit is a number as JavaScript has it, read from
    and written to text with [Number] and [String].  The sizes and
    places on the canvas are binary64 too, modelled on the rationals
    without overflow or subnormals, which they stay far from, and
    compared with the processor's floats on the values the page
    computes.  [reachable] is the page alone on its store; [reachableTabs]
    is several pages sharing one. *)

From Stdlib Require Import ZArith QArith Qround Qminmax Qpower Qabs Qreduction Lqa.
From Stdlib Require Import Ascii String DecimalString DecimalPos DecimalZ.
From Stdlib Require Import PrimFloat FloatOps SpecFloat Uint63.
From stdpp Require Import base option list strings gmap.

Set Default Proof Using "Type".
Local Open Scope Z_scope.

Coercion inject_Z : Z >-> Q.

(** ** Fractional numbers

    A JavaScript number with a fraction is an IEEE 754 binary64 value.
    Such a value is a rational, and every operation returns the exact
    result rounded to the nearest value with a 53-bit significand, ties
    to the even one.  Overflow, subnormal values and division by zero
    are left out: the page's numbers stay far inside the normal range,
    and the sides of a decoded picture are positive.  Integers below
    2^53 are exact, so the integer quantities of the page are kept in
    [Z].  The count of the rate limit, whose text anything may have
    stored, is a [JS.number], with the whole range. *)

Module Binary64.

Definition pow2 (k : Z) : Q := Qpower 2 k.

(** The [e] with [2^e <= a < 2^(e+1)], for positive [a]. *)
Definition binade (a : Q) : Z :=
  let e0 := Z.log2 (Qnum a) - Z.log2 (Zpos (Qden a)) in
  if Qle_bool (pow2 e0) a then e0 else e0 - 1.

(** The nearest integer, ties to even. *)
Definition rne (t : Q) : Z :=
  let f := Qfloor t in
  match (t - f ?= 1 # 2)%Q with
  | Lt => f
  | Gt => f + 1
  | Eq => if Z.even f then f else f + 1
  end.

(** The nearest binary64 value of a positive rational. *)
Definition nearest (a : Q) : Q :=
  let ulp := pow2 (binade a - 52) in
  (rne (a / ulp) * ulp)%Q.

Definition fl (x : Q) : Q :=
  match Qnum x with
  | Z0 => 0
  | Zpos _ => nearest x
  | Zneg _ => - nearest (- x)
  end.

(** A decimal literal of the source. *)
Definition lit (x : Q) : Q := fl x.

Definition mul (a b : Q) : Q := fl (a * b).
Definition div (a b : Q) : Q := fl (a / b).
Definition add (a b : Q) : Q := fl (a + b).
Definition sub (a b : Q) : Q := fl (a - b).

End Binary64.

Declare Scope js_scope.
Delimit Scope js_scope with js.
Arguments Binary64.lit x%_Q.
Arguments Binary64.mul (a b)%_js.
Arguments Binary64.div (a b)%_js.
Arguments Binary64.add (a b)%_js.
Arguments Binary64.sub (a b)%_js.
Infix "*" := Binary64.mul : js_scope.
Infix "/" := Binary64.div : js_scope.
Infix "+" := Binary64.add : js_scope.
Infix "-" := Binary64.sub : js_scope.
Abbreviation lit := Binary64.lit.

(** ** JavaScript values used by the page

    Text is a string of bytes, the UTF-8 of the JavaScript string. *)

Module JS.

(** A number: a binary64 value.  A finite value is kept as the integer,
    or as the fraction in lowest terms, that it stands for; the sign of
    zero, which nothing on the page can tell, is dropped. *)
Inductive number :=
| Num (z : Z)
| Frac (q : Q)
| Inf (negative : bool)
| NaN.

(** The number nearest to a rational: ties to even, subnormal below
    2^-1022, infinite from 2^1024. *)
Definition ofQ (x : Q) : number :=
  match Qnum x with
  | Z0 => Num 0
  | _ =>
      let a := Qabs x in
      let e := Z.max (Binary64.binade a) (-1022) in
      let ulp := Binary64.pow2 (e - 52) in
      let v := (inject_Z (Binary64.rne (a / ulp)) * ulp)%Q in
      if Qle_bool (Binary64.pow2 1024) v then Inf (Qnum x <? 0)
      else
        let r := Qred (if Qnum x <? 0 then - v else v) in
        if (Qden r =? 1)%positive then Num (Qnum r) else Frac r
  end.

(** The number nearest to an integer: the integer itself up to 2^53. *)
Definition ofZ (z : Z) : number :=
  if Z.abs z <=? 2 ^ 53 then Num z else ofQ (inject_Z z).

Definition neg (a : number) : number :=
  match a with
  | Num z => Num (- z)
  | Frac q => Frac (- q)
  | Inf s => Inf (negb s)
  | NaN => NaN
  end.

Definition add (a b : number) : number :=
  match a, b with
  | NaN, _ | _, NaN => NaN
  | Inf s, Inf s' => if Bool.eqb s s' then Inf s else NaN
  | Inf s, _ | _, Inf s => Inf s
  | Num x, Num y => ofZ (x + y)
  | Num x, Frac y => ofQ (inject_Z x + y)
  | Frac x, Num y => ofQ (x + inject_Z y)
  | Frac x, Frac y => ofQ (x + y)
  end.

Definition sub (a b : number) : number := add a (neg b).

(** [a <= b]; every comparison with [NaN] is false. *)
Definition le (a b : number) : bool :=
  match a, b with
  | NaN, _ | _, NaN => false
  | Inf true, _ | _, Inf false => true
  | Inf false, _ | _, Inf true => false
  | Num x, Num y => x <=? y
  | Num x, Frac y => Qle_bool (inject_Z x) y
  | Frac x, Num y => Qle_bool x (inject_Z y)
  | Frac x, Frac y => Qle_bool x y
  end.

Definition eqb (a b : number) : bool :=
  match a, b with
  | Num x, Num y => x =? y
  | Frac x, Frac y => Qeq_bool x y
  | Inf s, Inf s' => Bool.eqb s s'
  | NaN, NaN => true
  | _, _ => false
  end.

(** *** The text of a number *)

(** The decimal digits of an integer, with ["-"] before a negative
    one. *)
Definition decimal (z : Z) : string := NilZero.string_of_int (Z.to_int z).

Fixpoint zeros (k : nat) : string :=
  match k with
  | O => EmptyString
  | S k' => String.String "0"%char (zeros k')
  end.

Definition pow10 (k : Z) : Q := Qpower 10 k.

(** The [n] with [10^(n-1) <= q < 10^n], for positive [q]. *)
Definition magnitude (q : Q) : Z :=
  let digits z := Z.of_nat (String.length (decimal z)) in
  let n := if Qle_bool 1 q then digits (Qfloor q)
           else 1 - digits (Qfloor (/ q)) in
  if Qle_bool (pow10 n) q then n + 1
  else if Qle_bool (pow10 (n - 1)) q then n else n - 1.

(** The [k]-digit decimal [s * 10^(n-k)] that reads back as the number
    nearest to [q], if there is one: the closer to [q] of the two around
    it, the even one when both are as close. *)
Definition shortestAt (q : Q) (n k : Z) : option (Z * Z) :=
  let scale := pow10 (n - k) in
  let lo := Qfloor (q / scale) in
  let hi := lo + 1 in
  let okLo := eqb (ofQ (inject_Z lo * scale)) (ofQ q) in
  let okHi := eqb (ofQ (inject_Z hi * scale)) (ofQ q) in
  let below := (q - inject_Z lo * scale)%Q in
  let above := (inject_Z hi * scale - q)%Q in
  match okLo, okHi with
  | true, true =>
      match (below ?= above)%Q with
      | Lt => Some (lo, n - k)
      | Gt => Some (hi, n - k)
      | Eq => Some (if Z.even lo then lo else hi, n - k)
      end
  | true, false => Some (lo, n - k)
  | false, true => Some (hi, n - k)
  | false, false => None
  end.

(** The fewest digits that do: [k], [k+1], ...; seventeen always do. *)
Fixpoint shortest (fuel : nat) (q : Q) (n k : Z) : Z * Z :=
  match fuel with
  | O => (Qfloor (q / pow10 (n - k)), n - k)
  | S fuel' =>
      match shortestAt q n k with
      | Some r => r
      | None => shortest fuel' q n (k + 1)
      end
  end.

(** Zeros at the end of [s] go into the exponent. *)
Fixpoint stripZeros (fuel : nat) (s e : Z) : Z * Z :=
  match fuel with
  | O => (s, e)
  | S fuel' =>
      if (s mod 10 =? 0) && negb (s =? 0) then stripZeros fuel' (s / 10) (e + 1)
      else (s, e)
  end.

(** [Number::toString] of a positive number, from its digits and the
    place [n] of the decimal point. *)
Definition layout (digits : string) (n : Z) : string :=
  let k := Z.of_nat (String.length digits) in
  if (k <=? n) && (n <=? 21) then
    digits +:+ zeros (Z.to_nat (n - k))
  else if (0 <? n) && (n <=? 21) then
    String.substring 0 (Z.to_nat n) digits +:+ "."
      +:+ String.substring (Z.to_nat n) (Z.to_nat (k - n)) digits
  else if (-6 <? n) && (n <=? 0) then
    "0." +:+ zeros (Z.to_nat (- n)) +:+ digits
  else
    let e := n - 1 in
    let mantissa :=
      if k =? 1 then digits
      else String.substring 0 1 digits +:+ "."
             +:+ String.substring 1 (Z.to_nat (k - 1)) digits in
    mantissa +:+ "e" +:+ (if e <? 0 then "-" else "+") +:+ decimal (Z.abs e).

Definition positiveText (q : Q) : string :=
  let n := magnitude q in
  let '(s, e) := shortest 17 q n 1 in
  let '(s, e) := stripZeros 400 s e in
  let digits := decimal s in
  layout digits (e + Z.of_nat (String.length digits)).

(** [String(v)].  An integer up to 2^53 is its own shortest decimal,
    every integer of that size being a number. *)
Definition String (v : number) : string :=
  match v with
  | NaN => "NaN"
  | Inf false => "Infinity"
  | Inf true => "-Infinity"
  | Num z =>
      if Z.abs z <=? 2 ^ 53 then decimal z
      else if z <? 0 then "-" +:+ positiveText (inject_Z (- z))
      else positiveText (inject_Z z)
  | Frac q =>
      if Qnum q <? 0 then "-" +:+ positiveText (- q) else positiveText q
  end.

(** [String(z)] of a number that is an integer, as a template literal
    writes it. *)
Definition String_of_Z (z : Z) : string := String (Num z).

(** *** Reading a number *)

Definition code (c : ascii) : Z := Z.of_nat (nat_of_ascii c).

(** White space and line ends ([StrWhiteSpaceChar]), of one, two and
    three bytes. *)
Definition ws1 (c : ascii) : bool :=
  let n := code c in
  ((9 <=? n) && (n <=? 13)) || (n =? 32).
Definition ws2 (c1 c2 : ascii) : bool :=
  (code c1 =? 194) && (code c2 =? 160).
Definition ws3 (c1 c2 c3 : ascii) : bool :=
  let '(a, b, c) := (code c1, code c2, code c3) in
  ((a =? 225) && (b =? 154) && (c =? 128))
  || ((a =? 226) && (b =? 128)
      && (((128 <=? c) && (c <=? 138)) || (c =? 168) || (c =? 169) || (c =? 175)))
  || ((a =? 226) && (b =? 129) && (c =? 159))
  || ((a =? 227) && (b =? 128) && (c =? 128))
  || ((a =? 239) && (b =? 187) && (c =? 191)).

Fixpoint trimStart (s : string) : string :=
  match s with
  | String.String c1 r1 =>
      if ws1 c1 then trimStart r1
      else
        match r1 with
        | String.String c2 r2 =>
            if ws2 c1 c2 then trimStart r2
            else
              match r2 with
              | String.String c3 r3 => if ws3 c1 c2 c3 then trimStart r3 else s
              | EmptyString => s
              end
        | EmptyString => s
        end
  | EmptyString => s
  end.

Definition blank (s : string) : bool :=
  match trimStart s with EmptyString => true | _ => false end.

Fixpoint trimEnd (s : string) : string :=
  if blank s then EmptyString
  else
    match s with
    | String.String c r => String.String c (trimEnd r)
    | EmptyString => EmptyString
    end.

Definition isDigit (c : ascii) : bool := (48 <=? code c) && (code c <=? 57).

(** The decimal digits a text starts with, and what follows them. *)
Fixpoint digitRun (s : string) : string * string :=
  match s with
  | String.String c r =>
      if isDigit c then
        let '(d, rest) := digitRun r in (String.String c d, rest)
      else (EmptyString, s)
  | EmptyString => (EmptyString, EmptyString)
  end.

Definition digitsValue (d : string) : Z :=
  match NilEmpty.uint_of_string d with
  | Some u => Z.of_uint u
  | None => 0
  end.

Definition signOf (s : string) : bool * string :=
  match s with
  | String.String "+" r => (false, r)
  | String.String "-" r => (true, r)
  | _ => (false, s)
  end.

(** [ExponentPart], or nothing, up to the end of the text. *)
Definition exponentPart (s : string) : option Z :=
  match s with
  | EmptyString => Some 0
  | String.String c r =>
      if Ascii.eqb c "e" || Ascii.eqb c "E" then
        let '(negative, r) := signOf r in
        let '(d, rest) := digitRun r in
        match d, rest with
        | String.String _ _, EmptyString =>
            Some (if negative then - digitsValue d else digitsValue d)
        | _, _ => None
        end
      else None
  end.

(** [StrUnsignedDecimalLiteral] other than [Infinity]: its value. *)
Definition decimalLiteral (s : string) : option Q :=
  let '(i, r1) := digitRun s in
  let '(f, r2) :=
    match r1 with
    | String.String "." r => digitRun r
    | _ => (EmptyString, r1)
    end in
  match i +:+ f with
  | EmptyString => None
  | m =>
      match exponentPart r2 with
      | Some e =>
          Some (inject_Z (digitsValue m) * pow10 (e - Z.of_nat (String.length f)))%Q
      | None => None
      end
  end.

Definition strDecimalLiteral (s : string) : option number :=
  let '(negative, r) := signOf s in
  if String.eqb r "Infinity" then Some (Inf negative)
  else
    match decimalLiteral r with
    | Some q => Some (ofQ (if negative then - q else q))
    | None => None
    end.

(** The value of a digit, of a letter as a digit from ten on. *)
Definition hexDigit (c : ascii) : option Z :=
  let n := Z.of_nat (nat_of_ascii c) in
  if (48 <=? n) && (n <=? 57) then Some (n - 48)
  else if (97 <=? n) && (n <=? 102) then Some (n - 87)
  else if (65 <=? n) && (n <=? 70) then Some (n - 55)
  else None.

Fixpoint radixDigits (radix : Z) (s : string) (acc : Z) : option Z :=
  match s with
  | EmptyString => Some acc
  | String.String c r =>
      match hexDigit c with
      | Some d => if d <? radix then radixDigits radix r (acc * radix + d) else None
      | None => None
      end
  end.

(** [NonDecimalIntegerLiteral]: 0x, 0o or 0b and at least one digit. *)
Definition nonDecimalLiteral (s : string) : option Z :=
  match s with
  | String.String "0" (String.String x (String.String c r)) =>
      let digits := String.String c r in
      if Ascii.eqb x "x" || Ascii.eqb x "X" then radixDigits 16 digits 0
      else if Ascii.eqb x "o" || Ascii.eqb x "O" then radixDigits 8 digits 0
      else if Ascii.eqb x "b" || Ascii.eqb x "B" then radixDigits 2 digits 0
      else None
  | _ => None
  end.

(** [Number(s)]: white space around the text is dropped; nothing left
    reads as 0, a numeric literal as the number nearest to its value,
    anything else as [NaN]. *)
Definition Number (s : string) : number :=
  match trimEnd (trimStart s) with
  | EmptyString => Num 0
  | t =>
      match strDecimalLiteral t with
      | Some v => v
      | None =>
          match nonDecimalLiteral t with
          | Some z => ofZ z
          | None => NaN
          end
      end
  end.

(** *** Text *)

(** [s.padStart(n, "0")]. *)
Definition padStart0 (n : nat) (s : string) : string :=
  zeros (n - String.length s) +:+ s.

(** [s.startsWith(p)]. *)
Definition startsWith (p s : string) : bool := String.prefix p s.

(** [s.slice(0, n)] for [0 <= n]. *)
Definition slice0 (n : nat) (s : string) : string := String.substring 0 n s.

(** [Math.round]: the nearest integer, ties towards plus infinity. *)
Definition round (x : Q) : Z := Qfloor (x + (1 # 2)).

(** The hexadecimal digits a text starts with: their value. *)
Fixpoint hexPrefix (s : string) (acc : option Z) : option Z :=
  match s with
  | EmptyString => acc
  | String.String c r =>
      match hexDigit c with
      | Some d => hexPrefix r (Some (16 * default 0 acc + d))
      | None => acc
      end
  end.

(** [parseInt(s, 16)]: white space before the text is dropped, then a
    sign, then "0x" or "0X"; the hexadecimal digits that follow are
    read, and [NaN] is returned when there is none. *)
Definition parseInt16 (s : string) : number :=
  let '(negative, r) := signOf (trimStart s) in
  let r :=
    match r with
    | String.String "0" (String.String x r') =>
        if Ascii.eqb x "x" || Ascii.eqb x "X" then r' else r
    | _ => r
    end in
  match hexPrefix r None with
  | Some n => ofZ (if negative then - n else n)
  | None => NaN
  end.

(** An [Error] object, and the outcome of code that may throw.  [Hang]
    is a loop that runs out of the fuel the model gives it. *)
Record Error := mkError { message : string }.

Inductive result (A : Type) :=
| Ok (a : A)
| Throw (e : Error)
| Hang.
Arguments Ok {A} a.
Arguments Throw {A} e.
Arguments Hang {A}.

Definition bind {A B} (r : result A) (k : A -> result B) : result B :=
  match r with
  | Ok a => k a
  | Throw e => Throw e
  | Hang => Hang
  end.

End JS.

Notation "x <-r e1 ; e2" := (JS.bind e1 (fun x => e2))
  (at level 100, e1 at next level, right associativity).

(** The processor's own binary64 arithmetic, to check [Binary64]
    against. *)
Module Hardware.

(** The rational a finite float stands for. *)
Definition toQ (x : float) : option Q :=
  match Prim2SF x with
  | S754_zero _ => Some 0%Q
  | S754_finite s m e =>
      let v := if s then Z.neg m else Z.pos m in
      Some (if 0 <=? e then inject_Z (v * 2 ^ e)
            else v # Pos.pow 2 (Z.to_pos (- e)))
  | _ => None
  end.

(** An integer below 2^53 as a float. *)
Definition ofZ (z : Z) : float :=
  if z <? 0 then PrimFloat.opp (PrimFloat.of_uint63 (Uint63.of_Z (- z)))
  else PrimFloat.of_uint63 (Uint63.of_Z z).

(** The float of a decimal literal [n/d]: the correctly rounded
    quotient. *)
Definition ofLit (x : Q) : float :=
  PrimFloat.div (ofZ (Qnum x)) (ofZ (Zpos (Qden x))).

(** [Math.min] on two finite floats. *)
Definition min (x y : float) : float := if PrimFloat.ltb y x then y else x.

(** The float [x] stands for the rational [q]. *)
Definition same (x : float) (q : Q) : bool :=
  match toQ x with
  | Some v => Qeq_bool v q
  | None => false
  end.

End Hardware.

Arguments Hardware.ofLit x%_Q.
Arguments Hardware.ofZ z%_Z.

(** ** Types (the [GenOptions] interface and the browser objects) *)

Inductive Mode := photo | poster.
Inductive Ratio := ratio_1_1 | ratio_4_5 | ratio_16_9 | ratio_9_16.
Inductive Quality := standard | high | ultra.

Record GenOptions := mkGenOptions {
  mode : Mode;
  style : string;
  customPrompt : string;
  ratio : Ratio;
  quality : Quality;
  watermark : bool
}.

Definition Mode_text (m : Mode) : string :=
  match m with photo => "photo" | poster => "poster" end.

Definition Ratio_text (r : Ratio) : string :=
  match r with
  | ratio_1_1 => "1:1" | ratio_4_5 => "4:5"
  | ratio_16_9 => "16:9" | ratio_9_16 => "9:16"
  end.

Definition Quality_text (q : Quality) : string :=
  match q with standard => "standard" | high => "high" | ultra => "ultra" end.

(** A CSS colour: literal text, or the [rgba(r,g,b,a)] text that
    [hexWithAlpha] assembles, kept as its four numbers. *)
Inductive Color :=
| Css (text : string)
| Rgba (r g b : JS.number) (a : Q).

(** A data URL is either what [FileReader] made of an uploaded file (its
    MIME type, and the size of the picture its bytes hold, if they hold
    one) or the PNG of a canvas (its size and what was drawn on it).
    A draw operation records the context settings it was drawn with. *)
Inductive DataUrl :=
| FileUrl (mime : string) (picture : option (Z * Z))
| CanvasPng (w h : Z) (drawn : list DrawOp)
with DrawOp :=
| FillRect (fillStyle : Color) (globalAlpha : Q) (x y w h : Q)
| DrawImage (filter : string) (globalAlpha : Q) (image : DataUrl) (x y w h : Q)
| FillText (fillStyle : Color) (font : string) (globalAlpha : Q)
           (text : string) (x y : Q).

(** [File]: the MIME type the browser reports, whether [FileReader] can
    read it, and the picture held by its bytes. *)
Record File := mkFile {
  type : string;
  readable : bool;
  picture : option (Z * Z)
}.

Module Image.
(** [HTMLImageElement] after a successful load. *)
Record t := mk { src : DataUrl; width : Z; height : Z }.
End Image.

Module Ctx.
(** [CanvasRenderingContext2D]: the drawing state, the stack of
    [save], and the operations drawn so far (oldest first). *)
Record settings := mkSettings {
  fillStyle : Color;
  filter : string;
  globalAlpha : Q;
  font : string
}.

Record t := mk {
  cur : settings;
  saved : list settings;
  drawn : list DrawOp
}.

Definition fresh : t :=
  mk (mkSettings (Css "#000000") "none" 1 "10px sans-serif") [] [].

Definition set_fillStyle (v : Color) (c : t) : t :=
  mk (mkSettings v (filter (cur c)) (globalAlpha (cur c)) (font (cur c)))
     (saved c) (drawn c).
Definition set_filter (v : string) (c : t) : t :=
  mk (mkSettings (fillStyle (cur c)) v (globalAlpha (cur c)) (font (cur c)))
     (saved c) (drawn c).
Definition set_globalAlpha (v : Q) (c : t) : t :=
  mk (mkSettings (fillStyle (cur c)) (filter (cur c)) v (font (cur c)))
     (saved c) (drawn c).
Definition set_font (v : string) (c : t) : t :=
  mk (mkSettings (fillStyle (cur c)) (filter (cur c)) (globalAlpha (cur c)) v)
     (saved c) (drawn c).

Definition save (c : t) : t := mk (cur c) (cur c :: saved c) (drawn c).
Definition restore (c : t) : t :=
  match saved c with
  | [] => c
  | s :: rest => mk s rest (drawn c)
  end.

Definition fillRect (x y w h : Q) (c : t) : t :=
  mk (cur c) (saved c)
     (drawn c ++ [FillRect (fillStyle (cur c)) (globalAlpha (cur c)) x y w h]).
Definition drawImage (i : Image.t) (x y w h : Q) (c : t) : t :=
  mk (cur c) (saved c)
     (drawn c ++ [DrawImage (filter (cur c)) (globalAlpha (cur c))
                            (Image.src i) x y w h]).
Definition fillText (text : string) (x y : Q) (c : t) : t :=
  mk (cur c) (saved c)
     (drawn c ++ [FillText (fillStyle (cur c)) (font (cur c))
                           (globalAlpha (cur c)) text x y]).
End Ctx.

Module Canvas.
(** [HTMLCanvasElement] together with its 2D context. *)
Record t := mk { width : Z; height : Z; ctx : Ctx.t }.

Definition create (w h : Z) : t := mk w h Ctx.fresh.
Definition draw (f : Ctx.t -> Ctx.t) (c : t) : t :=
  mk (width c) (height c) (f (ctx c)).
(** [c.toDataURL("image/png")]. *)
Definition toDataURL (c : t) : DataUrl :=
  CanvasPng (width c) (height c) (Ctx.drawn (ctx c)).
End Canvas.

(** ** Helpers *)

Definition contain (iw ih maxW maxH : Z) : Z * Z :=
  let r := Qmin (maxW / iw)%js (maxH / ih)%js in
  (JS.round (iw * r)%js, JS.round (ih * r)%js).

(** [hex.replace("#", "")]: the first ["#"] is removed. *)
Fixpoint dropHash (s : string) : string :=
  match s with
  | EmptyString => EmptyString
  | String c r => if Ascii.eqb c "#" then r else String c (dropHash r)
  end.

Definition hexWithAlpha (hex : string) (a : Q) : Color :=
  let x := dropHash hex in
  let r := JS.parseInt16 (String.substring 0 2 x) in
  let g := JS.parseInt16 (String.substring 2 2 x) in
  let b := JS.parseInt16 (String.substring 4 2 x) in
  Rgba r g b a.

(** The one-character text U+2026 used by [truncate]. *)
Definition ellipsis : string :=
  String (ascii_of_nat 226) (String (ascii_of_nat 128)
    (String (ascii_of_nat 166) EmptyString)).

Definition truncate (s : string) (n : nat) : string :=
  if (n <? String.length s)%nat then JS.slice0 (n - 1) s +:+ ellipsis else s.

Definition fileToDataUrl (file : File) : JS.result DataUrl :=
  if readable file then JS.Ok (FileUrl (type file) (picture file))
  else JS.Throw (JS.mkError "Gagal membaca file.").

(** [loadImage]: a canvas PNG decodes to a picture of the canvas's size,
    a file URL to the picture its bytes hold. *)
Definition loadImage (src : DataUrl) : JS.result Image.t :=
  match src with
  | CanvasPng w h _ => JS.Ok (Image.mk src w h)
  | FileUrl _ (Some (w, h)) => JS.Ok (Image.mk src w h)
  | FileUrl _ None => JS.Throw (JS.mkError "Gagal memuat gambar.")
  end.

Definition upscale2x (dataUrl : DataUrl) : JS.result DataUrl :=
  img <-r loadImage dataUrl;
  let c := Canvas.create (Image.width img * 2) (Image.height img * 2) in
  let c := Canvas.draw
             (Ctx.drawImage img 0 0 (Canvas.width c) (Canvas.height c)) c in
  JS.Ok (Canvas.toDataURL c).

(** ** The demo generators *)

Module Preset.
Record t := mk { name : string; filter : string }.
End Preset.

Definition buildPresetFilters (opts : GenOptions) : list Preset.t :=
  let base := "contrast(1.05) saturate(1.05)" in
  let list_ :=
    [ Preset.mk "clean" (base +:+ " brightness(1.03)");
      Preset.mk "moody" (base +:+ " brightness(0.92) contrast(1.15)");
      Preset.mk "pop" (base +:+ " brightness(1.1) saturate(1.25)");
      Preset.mk "matte" (base +:+ " brightness(1.0) contrast(0.95)") ] in
  match mode opts with
  | poster => rev list_
  | photo => list_
  end.

Definition ratios (r : Ratio) : Z * Z :=
  match r with
  | ratio_1_1 => (1024, 1024)
  | ratio_4_5 => (1024, 1280)
  | ratio_16_9 => (1280, 720)
  | ratio_9_16 => (1080, 1920)
  end.

Definition qualityScale (q : Quality) : Q :=
  match q with
  | ultra => lit 1.6
  | high => lit 1.3
  | standard => 1
  end.

(** The grid accent: [for (gx = pad; gx < cw - pad; gx += step)]. *)
Fixpoint gridLoop (fuel : nat) (gx stop step pad ch : Z) (ctx : Ctx.t)
  : JS.result Ctx.t :=
  if gx <? stop then
    match fuel with
    | O => JS.Hang
    | S fuel' =>
        gridLoop fuel' (gx + step) stop step pad ch
                 (Ctx.fillRect gx pad 1 (ch - pad * 2)%Z ctx)
    end
  else JS.Ok ctx.

(** [presets[i % presets.length]]; reading [.filter] off a missing entry
    is a [TypeError]. *)
Definition presetAt (presets : list Preset.t) (i : nat) : JS.result Preset.t :=
  match presets !! (i mod length presets)%nat with
  | Some p => JS.Ok p
  | None => JS.Throw (JS.mkError "Cannot read properties of undefined")
  end.

Section Generators.

(** [ctx.measureText(text).width] under a given [ctx.font]: the
    browser's font metrics. *)
Variable measureText : string -> string -> Q.

(** One turn of the loop of [generateVariants]. *)
Definition drawVariant (base : Image.t) (opts : GenOptions)
    (presets : list Preset.t) (w h : Z) (qualityScale : Q) (i : nat)
  : JS.result DataUrl :=
  let cw := JS.round (w * qualityScale)%js in
  let ch := JS.round (h * qualityScale)%js in
  let ctx := Ctx.fresh in
  (* Background *)
  let ctx := Ctx.set_fillStyle
               (Css (match mode opts with
                     | poster => "#0a0a0a" | photo => "#111" end)) ctx in
  let ctx := Ctx.fillRect 0 0 cw ch ctx in
  (* Place product image *)
  let pad := JS.round (Z.min cw ch * lit 0.08)%js in
  let iw := cw - pad * 2 in
  let ih := ch - pad * 2 in
  let fit := contain (Image.width base) (Image.height base) iw ih in
  let ix := ((cw - fst fit) / 2)%js in
  let iy := ((ch - snd fit) / 2)%js in
  (* Apply filter preset *)
  let ctx := Ctx.save ctx in
  p <-r presetAt presets i;
  let ctx := Ctx.set_filter (Preset.filter p) ctx in
  let ctx := Ctx.set_globalAlpha 1 ctx in
  let ctx := Ctx.drawImage base ix iy (fst fit) (snd fit) ctx in
  let ctx := Ctx.restore ctx in
  (* Poster mode: add typographic blocks *)
  ctx <-r match mode opts with
          | poster =>
              let p := presets !! (i mod length presets)%nat in
              let ctx := Ctx.set_fillStyle (hexWithAlpha "#ffffff" (lit 0.06)) ctx in
              ctx <-r gridLoop (Z.to_nat cw) pad (cw - pad) (JS.round ((cw - pad * 2)%Z / 6)%js)
                               pad ch ctx;
              let ctx := Ctx.set_fillStyle (Css "#fff") ctx in
              let ctx := Ctx.set_font
                           (JS.String_of_Z (JS.round (cw * lit 0.06)%js) +:+ "px sans-serif") ctx in
              let ctx := Ctx.fillText "PRODUCTPRO" pad (ch - pad * lit 1.2)%js ctx in
              let ctx := Ctx.set_globalAlpha (lit 0.8) ctx in
              let ctx := Ctx.set_font
                           (JS.String_of_Z (JS.round (cw * lit 0.03)%js) +:+ "px sans-serif") ctx in
              let ctx := Ctx.fillText (truncate (style opts) 42) pad (ch - pad * lit 0.6)%js ctx in
              let ctx := Ctx.set_globalAlpha 1 ctx in
              let ctx := Ctx.set_fillStyle (hexWithAlpha "#ffffff" (lit 0.12)) ctx in
              JS.Ok (Ctx.fillRect pad pad (JS.round (cw * lit 0.28)%js)
                                 (JS.round (ch * lit 0.02)%js) ctx)
          | photo => JS.Ok ctx
          end;
  (* Watermark *)
  let ctx :=
    if watermark opts then
      let ctx := Ctx.set_fillStyle (hexWithAlpha "#ffffff" (lit 0.7)) ctx in
      let ctx := Ctx.set_font
                   (JS.String_of_Z (JS.round (cw * lit 0.018)%js) +:+ "px sans-serif") ctx in
      let text := "ProductPro" in
      let tw := measureText (Ctx.font (Ctx.cur ctx)) text in
      Ctx.fillText text (cw - tw - pad)%js (ch - pad)%Z ctx
    else ctx in
  JS.Ok (Canvas.toDataURL (Canvas.mk cw ch ctx)).

(** [for (let i = 0; i < 4; i++) { ...; out.push(...) }], [n] turns
    still to go. *)
Fixpoint variantLoop (n : nat) (i : nat) (turn : nat -> JS.result DataUrl)
  : JS.result (list DataUrl) :=
  match n with
  | O => JS.Ok []
  | S n' =>
      v <-r turn i;
      rest <-r variantLoop n' (S i) turn;
      JS.Ok (v :: rest)
  end.

Definition generateVariants (src : DataUrl) (opts : GenOptions)
  : JS.result (list DataUrl) :=
  let '(w, h) := ratios (ratio opts) in
  let qualityScale := qualityScale (quality opts) in
  base <-r loadImage src;
  let presets := buildPresetFilters opts in
  variantLoop 4 0 (drawVariant base opts presets w h qualityScale).

End Generators.

Record Copy := mkCopy { caption : string; ad : string }.

Definition buildCopies (opts : GenOptions) : list Copy :=
  let isPhoto := match mode opts with photo => true | poster => false end in
  [ mkCopy
      ("Upgrade tampilan produkmu. "
         +:+ (if isPhoto then "Foto studio bersih" else "Poster modern")
         +:+ " dengan gaya: " +:+ style opts +:+ ". #ProductPro")
      ("Kenalkan produk Anda dengan visual " +:+ Mode_text (mode opts)
         +:+ ". Gaya: " +:+ style opts +:+ ". Coba gratis hari ini.");
    mkCopy
      ("Visual yang bikin berhenti scroll. "
         +:+ (if isPhoto then "Foto" else "Poster")
         +:+ " bergaya " +:+ style opts +:+ ".")
      ("Tingkatkan CTR dengan aset " +:+ Mode_text (mode opts)
         +:+ " berkualitas " +:+ Quality_text (quality opts) +:+ ". Mulai sekarang!");
    mkCopy
      ("Dari foto biasa jadi materi siap upload. Aspect "
         +:+ Ratio_text (ratio opts) +:+ ".")
      "Generate 4 variasi otomatis + watermark opsional. Cocok untuk UMKM.";
    mkCopy
      ("Tampil konsisten di feed. "
         +:+ (if isPhoto then "Lighting terkontrol" else "Grid tipografi rapi")
         +:+ ".")
      "Sesuaikan style & export ZIP. Scale kontenmu tanpa ribet." ].

(** ** The browser around the component *)

(** What [new Date()] shows of the local calendar day. *)
Record Date := mkDate { getFullYear : Z; getMonth : Z; getDate : Z }.

Inductive Blob :=
| ZipBlob (files : list (string * DataUrl))
| DataBlob (dataUrl : DataUrl).

Inductive Effect :=
| Download (data : Blob) (filename : string)
| ConsoleWarn (msg : string) (e : JS.Error).

Record World := mkWorld {
  localStorage : gmap string string;
  today : Date;                          (* new Date() *)
  now : Z;                               (* Date.now() *)
  measureText : string -> string -> Q;   (* font metrics *)
  zipFailure : option JS.Error;          (* what the JSZip path throws, if it does *)
  setItemFailure : option JS.Error;      (* what localStorage.setItem throws, if it does *)
  effects : list Effect                  (* downloads and warnings so far *)
}.

(** ** The component's state cells *)

Record State := mkState {
  img : option DataUrl;
  busy : bool;
  error : option string;
  options : GenOptions;
  variants : list DataUrl;
  copies : list Copy;
  opsUsed : JS.number
}.

(** ** A state-and-exception monad for the handlers

    A handler runs on the browser and the state cells together; a throw
    keeps every update made before it. *)

Definition Sys : Type := World * State.
Definition M (A : Type) : Type := Sys -> Sys * JS.result A.

Definition ret {A} (a : A) : M A := fun sys => (sys, JS.Ok a).
Definition throw {A} (msg : string) : M A :=
  fun sys => (sys, JS.Throw (JS.mkError msg)).
Definition lift {A} (r : JS.result A) : M A := fun sys => (sys, r).

Definition mbind {A B} (m : M A) (k : A -> M B) : M B :=
  fun sys =>
    match m sys with
    | (sys', JS.Ok a) => k a sys'
    | (sys', JS.Throw e) => (sys', JS.Throw e)
    | (sys', JS.Hang) => (sys', JS.Hang)
    end.

Notation "x <- e1 ;; e2" := (mbind e1 (fun x => e2))
  (at level 100, e1 at next level, right associativity).
Notation "e1 ;; e2" := (mbind e1 (fun _ => e2))
  (at level 100, right associativity).

(** [try { body } catch (e) { handler(e) }]. *)
Definition try_catch (body : M unit) (handler : JS.Error -> M unit) : M unit :=
  fun sys =>
    match body sys with
    | (sys', JS.Throw e) => handler e sys'
    | r => r
    end.

(** [try { body } finally { fin }]; [fin] does not throw here. *)
Definition try_finally (body : M unit) (fin : M unit) : M unit :=
  fun sys =>
    match body sys with
    | (sys', JS.Hang) => (sys', JS.Hang)
    | (sys', r) => (fst (fin sys'), r)
    end.

Definition getWorld : M World := fun sys => (sys, JS.Ok (fst sys)).

Definition setState (f : State -> State) : M unit :=
  fun '(w, s) => ((w, f s), JS.Ok tt).

Definition setImg (v : option DataUrl) : M unit :=
  setState (fun s => mkState v (busy s) (error s) (options s)
                             (variants s) (copies s) (opsUsed s)).
Definition setBusy (v : bool) : M unit :=
  setState (fun s => mkState (img s) v (error s) (options s)
                             (variants s) (copies s) (opsUsed s)).
Definition setError (v : option string) : M unit :=
  setState (fun s => mkState (img s) (busy s) v (options s)
                             (variants s) (copies s) (opsUsed s)).
Definition setOptions (v : GenOptions) : M unit :=
  setState (fun s => mkState (img s) (busy s) (error s) v
                             (variants s) (copies s) (opsUsed s)).
Definition setVariants (v : list DataUrl) : M unit :=
  setState (fun s => mkState (img s) (busy s) (error s) (options s)
                             v (copies s) (opsUsed s)).
Definition setCopies (v : list Copy) : M unit :=
  setState (fun s => mkState (img s) (busy s) (error s) (options s)
                             (variants s) v (opsUsed s)).
Definition setOpsUsed (v : JS.number) : M unit :=
  setState (fun s => mkState (img s) (busy s) (error s) (options s)
                             (variants s) (copies s) v).

(** [localStorage.setItem(key, value)]: the browser stores the item, or
    refuses and throws (a full or a disabled store). *)
Definition setItem (key value : string) : M unit :=
  fun '(w, s) =>
    match setItemFailure w with
    | Some e => ((w, s), JS.Throw e)
    | None =>
        ((mkWorld (<[key := value]> (localStorage w)) (today w) (now w)
                  (measureText w) (zipFailure w) (setItemFailure w) (effects w), s),
         JS.Ok tt)
    end.

Definition emit (e : Effect) : M unit :=
  fun '(w, s) =>
    ((mkWorld (localStorage w) (today w) (now w) (measureText w)
              (zipFailure w) (setItemFailure w) (effects w ++ [e]), s), JS.Ok tt).

Definition triggerDownload (data : Blob) (filename : string) : M unit :=
  emit (Download data filename).

(** Every data URL of the model splits and decodes. *)
Definition dataURLtoBlob (dataUrl : DataUrl) : Blob := DataBlob dataUrl.

(** ** Rate limit *)

Definition keyFor (d : Date) : string :=
  let y := getFullYear d in
  let m := JS.padStart0 2 (JS.String_of_Z (getMonth d + 1)) in
  let day := JS.padStart0 2 (JS.String_of_Z (getDate d)) in
  "pp_ops_" +:+ JS.String_of_Z y +:+ "-" +:+ m +:+ "-" +:+ day.

Definition keyForToday (w : World) : string := keyFor (today w).

(** [localStorage.getItem(key) || "0"]. *)
Definition getItemOr0 (store : gmap string string) (key : string) : string :=
  match store !! key with
  | Some EmptyString | None => "0"
  | Some v => v
  end.

Definition getOpsUsed (w : World) : JS.number :=
  let key := keyForToday w in
  JS.Number (getItemOr0 (localStorage w) key).

Definition incOpsUsed (n : JS.number) : M unit :=
  w <- getWorld;;
  let key := keyForToday w in
  let v := JS.add (getOpsUsed w) n in
  setItem key (JS.String v);;
  setOpsUsed v.

Definition remaining (s : State) : JS.number := JS.sub (JS.Num 30) (opsUsed s).

(** ** Handlers *)

Definition onUpload (file : option File) : M unit :=
  setError None;;
  match file with
  | Some f =>
      if JS.startsWith "image/" (type f) then
        dataUrl <- lift (fileToDataUrl f);;
        setImg (Some dataUrl)
      else setError (Some "Unggah file gambar (PNG/JPG)")
  | None => setError (Some "Unggah file gambar (PNG/JPG)")
  end.

(** [e.message || fallback]. *)
Definition messageOr (e : JS.Error) (fallback : string) : string :=
  match JS.message e with
  | EmptyString => fallback
  | m => m
  end.

(** A handler reads [img], [remaining], [options] and [variants] off the
    render it was created in: the state [s] it starts from.  The [try]
    block of each handler is a definition of its own, so that "the block
    throws" can be said of it. *)
Definition generateTry (s : State) : M unit :=
  setBusy true;;
  setError None;;
  i <- match img s with
       | Some i => ret i
       | None => throw "Harap unggah foto produk dulu."
       end;;
  (if JS.le (remaining s) (JS.Num 0)
   then throw "Batas 30 operasi/hari tercapai."
   else ret tt);;
  w <- getWorld;;
  out <- lift (generateVariants (measureText w) i (options s));;
  setVariants out;;
  let c := buildCopies (options s) in
  setCopies c;;
  incOpsUsed (JS.Num 1).

Definition runGenerate : M unit :=
  fun sys =>
    try_finally
      (try_catch (generateTry (snd sys))
                 (fun e => setError (Some (messageOr e "Gagal generate."))))
      (setBusy false)
      sys.

(** [Promise.all(variants.map(upscale2x))]: every decode throws the same
    error, so which rejection comes first does not show. *)
Fixpoint all {A B} (f : A -> JS.result B) (l : list A) : JS.result (list B) :=
  match l with
  | [] => JS.Ok []
  | x :: rest =>
      y <-r f x;
      ys <-r all f rest;
      JS.Ok (y :: ys)
  end.

Definition upscaleTry (s : State) : M unit :=
  setBusy true;;
  up <- lift (all upscale2x (variants s));;
  setVariants up.

Definition doUpscale : M unit :=
  fun sys =>
    try_finally
      (try_catch (upscaleTry (snd sys))
                 (fun e => setError (Some (JS.message e))))
      (setBusy false)
      sys.

(** [list.forEach((v, i) => f(v, i))], [i] counted from [start]. *)
Fixpoint forEach {A} (l : list A) (start : Z) (f : A -> Z -> M unit) : M unit :=
  match l with
  | [] => ret tt
  | v :: rest => f v start;; forEach rest (start + 1) f
  end.

Definition pngName (i : Z) : string :=
  "productpro_" +:+ JS.String_of_Z (i + 1) +:+ ".png".

(** The inner [try]: import JSZip, add the files, package, download.
    Import and packaging are the browser's; [zipFailure] says whether
    they throw. *)
Definition zipTry (s : State) : M unit :=
  w <- getWorld;;
  match zipFailure w with
  | Some e => lift (JS.Throw e)
  | None =>
      let files := imap (fun i v => (pngName (Z.of_nat i), v)) (variants s) in
      triggerDownload (ZipBlob files)
        ("ProductPro_" +:+ JS.String_of_Z (now w) +:+ ".zip")
  end.

(** The inner [catch]: one download per variant. *)
Definition zipCatch (s : State) (zipErr : JS.Error) : M unit :=
  emit (ConsoleWarn "ZIP failed, fallback to individual downloads" zipErr);;
  forEach (variants s) 0
    (fun v i => triggerDownload (dataURLtoBlob v) (pngName i)).

Definition exportTry (s : State) : M unit :=
  setBusy true;;
  try_catch (zipTry s) (zipCatch s).

Definition exportAll : M unit :=
  fun sys =>
    try_finally
      (try_catch (exportTry (snd sys))
                 (fun e => setError (Some (JS.message e))))
      (setBusy false)
      sys.

Definition clearAll : M unit :=
  setVariants [];;
  setCopies [].

(** The [useState] initialisers of a fresh mount. *)
Definition mount (w : World) : State :=
  mkState None false None
    (mkGenOptions photo "Studio softbox, glossy table, minimal shadows" ""
                  ratio_1_1 standard true)
    [] [] (getOpsUsed w).

(** ** The page as a transition system *)

Inductive Action :=
| Upload (file : File)
| RemoveImage
| ChangeOptions (o : GenOptions)
| Generate
| Upscale
| Export
| Reset.

Definition perform (a : Action) : M unit :=
  match a with
  | Upload f => onUpload (Some f)
  | RemoveImage => setImg None
  | ChangeOptions o => setOptions o
  | Generate => runGenerate
  | Upscale => doUpscale
  | Export => exportAll
  | Reset => clearAll
  end.

(** A calendar day as the clock can show it (a [Date] spans the years
    -271821 to 275760), and a number that orders such days. *)
Definition validDate (d : Date) : Prop :=
  -271821 <= getFullYear d <= 275760 /\
  0 <= getMonth d <= 11 /\ 1 <= getDate d <= 31.

Definition dayIndex (d : Date) : Z :=
  (getFullYear d * 12 + getMonth d) * 32 + getDate d.

(** The browser moves on: the clock does not run backwards; the network,
    the fonts and whether the store takes a write may change; what is
    stored and what was downloaded stay. *)
Definition elapses (w w' : World) : Prop :=
  localStorage w' = localStorage w /\
  effects w' = effects w /\
  validDate (today w') /\
  dayIndex (today w) <= dayIndex (today w').

(** A first visit: nothing is stored for today or for a later day. *)
Definition freshStore (w : World) : Prop :=
  validDate (today w) /\
  forall d, validDate d -> dayIndex (today w) <= dayIndex d ->
            localStorage w !! keyFor d = None.

Inductive reachable : Sys -> Prop :=
| reach_mount w :
    freshStore w -> reachable (w, mount w)
| reach_action a sys :
    reachable sys -> reachable (fst (perform a sys))
| reach_reload w s :
    reachable (w, s) -> reachable (w, mount w)
| reach_elapse w w' s :
    reachable (w, s) -> elapses w w' -> reachable (w', s).

(** The stored counter of the current day. *)
Definition counter (sys : Sys) : JS.number := getOpsUsed (fst sys).

(** ** Several pages on one store

    Pages open in one browser share the store and the clock; each has
    state cells of its own. *)

Definition Tabs : Type := World * list State.

(** Page [i] runs the handler [h]. *)
Definition onPage (i : nat) (h : M unit) (t : Tabs) : Tabs :=
  match snd t !! i with
  | Some s =>
      let sys' := fst (h (fst t, s)) in
      (fst sys', <[i := snd sys']> (snd t))
  | None => t
  end.

Inductive Step :=
| Open
| Act (i : nat) (a : Action)
| Reload (i : nat).

Definition step (st : Step) (t : Tabs) : Tabs :=
  match st with
  | Open => (fst t, snd t ++ [mount (fst t)])
  | Act i a => onPage i (perform a) t
  | Reload i => (fst t, <[i := mount (fst t)]> (snd t))
  end.

Definition steps (l : list Step) (t : Tabs) : Tabs :=
  fold_left (fun t st => step st t) l t.

Inductive reachableTabs : Tabs -> Prop :=
| tabs_first w :
    freshStore w -> reachableTabs (w, [])
| tabs_step st t :
    reachableTabs t -> reachableTabs (step st t)
| tabs_elapse w w' pages :
    reachableTabs (w, pages) -> elapses w w' -> reachableTabs (w', pages).

(** ** Vocabulary of the statements *)

(** *** What is read off a variant *)

(** Size and drawing of a canvas PNG. *)
Definition pngSize (v : DataUrl) : option (Z * Z) :=
  match v with
  | CanvasPng w h _ => Some (w, h)
  | FileUrl _ _ => None
  end.

Definition drawnOn (v : DataUrl) : list DrawOp :=
  match v with
  | CanvasPng _ _ ops => ops
  | FileUrl _ _ => []
  end.

(** The filters under which a picture was drawn onto a variant. *)
Definition filterOf (op : DrawOp) : option string :=
  match op with
  | DrawImage f _ _ _ _ _ _ => Some f
  | _ => None
  end.

Definition filtersApplied (v : DataUrl) : list string :=
  omap filterOf (drawnOn v).

(** The watermark: the text "ProductPro" in white at alpha 0.7. *)
Definition isWatermark (op : DrawOp) : bool :=
  match op with
  | FillText (Rgba (JS.Num 255) (JS.Num 255) (JS.Num 255) a) _ _ text _ _ =>
      Qeq_bool a (lit 0.7) && String.eqb text "ProductPro"
  | _ => false
  end.

Definition hasWatermark (v : DataUrl) : bool := existsb isWatermark (drawnOn v).

(** What the statements read off a variant: its size, the filters under
    which the picture was drawn, and whether it carries the watermark. *)
Definition summary (v : DataUrl) : option (Z * Z) * list string * bool :=
  (pngSize v, filtersApplied v, hasWatermark v).

(** An operation that neither draws a picture nor is the watermark. *)
Definition plain (op : DrawOp) : Prop :=
  filterOf op = None /\ isWatermark op = false.

(** The canvas size [generateVariants] computes from the options. *)
Definition canvasSize (opts : GenOptions) : Z * Z :=
  (JS.round (fst (ratios (ratio opts)) * qualityScale (quality opts))%js,
   JS.round (snd (ratios (ratio opts)) * qualityScale (quality opts))%js).

(** The padding [generateVariants] computes from the canvas size. *)
Definition padOf (cw ch : Z) : Z := JS.round (Z.min cw ch * lit 0.08)%js.

(** The stamp of source lines 418-424 on a [cw] by [ch] canvas. *)
Definition stamp (mt : string -> string -> Q) (cw ch : Z) : DrawOp :=
  let font := JS.String_of_Z (JS.round (cw * lit 0.018)%js) +:+ "px sans-serif" in
  FillText (Rgba (JS.Num 255) (JS.Num 255) (JS.Num 255) (lit 0.7)) font 1 "ProductPro"
           (cw - mt font "ProductPro" - padOf cw ch)%js (ch - padOf cw ch)%Z.

(** The badge the page lays over every variant tile (source lines
    308-310). *)
Definition badge (s : State) : option string :=
  if watermark (options s) then Some "ProductPro" else None.

(** The quality multipliers as the decimals they are written as. *)
Definition multiplier (q : Quality) : Q :=
  match q with
  | ultra => 1.6
  | high => 1.3
  | standard => 1
  end.

(** "Equal to the table entry scaled by the multiplier", read to the
    letter. *)
Definition exactlyScaled (opts : GenOptions) (v : DataUrl) : Prop :=
  exists w h : Z,
    pngSize v = Some (w, h) /\
    (w == fst (ratios (ratio opts)) * multiplier (quality opts))%Q /\
    (h == snd (ratios (ratio opts)) * multiplier (quality opts))%Q.

(** *** Fitting, and the processor *)

(** "The scaled picture fits the box". *)
Definition fitsBox (iw ih maxW maxH : Z) : Prop :=
  fst (contain iw ih maxW maxH) <= maxW /\
  snd (contain iw ih maxW maxH) <= maxH.

(** Every rounding of [generateVariants] that does not depend on the
    picture, for one table entry: the processor's result against
    [Binary64]'s. *)
Definition tableChecks (r : Ratio) (q : Quality) : list bool :=
  let '(w, h) := ratios r in
  let cw := JS.round (w * qualityScale q)%js in
  let ch := JS.round (h * qualityScale q)%js in
  let pad := padOf cw ch in
  [ Hardware.same (Hardware.ofZ w * Hardware.ofLit (multiplier q))%float (w * qualityScale q)%js;
    Hardware.same (Hardware.ofZ h * Hardware.ofLit (multiplier q))%float (h * qualityScale q)%js;
    Hardware.same (Hardware.ofZ (Z.min cw ch) * Hardware.ofLit 0.08)%float (Z.min cw ch * lit 0.08)%js;
    Hardware.same (Hardware.ofZ (cw - pad * 2) / Hardware.ofZ 6)%float ((cw - pad * 2)%Z / 6)%js;
    Hardware.same (Hardware.ofZ cw * Hardware.ofLit 0.06)%float (cw * lit 0.06)%js;
    Hardware.same (Hardware.ofZ cw * Hardware.ofLit 0.03)%float (cw * lit 0.03)%js;
    Hardware.same (Hardware.ofZ cw * Hardware.ofLit 0.018)%float (cw * lit 0.018)%js;
    Hardware.same (Hardware.ofZ cw * Hardware.ofLit 0.28)%float (cw * lit 0.28)%js;
    Hardware.same (Hardware.ofZ ch * Hardware.ofLit 0.02)%float (ch * lit 0.02)%js;
    Hardware.same (Hardware.ofZ ch - Hardware.ofZ pad * Hardware.ofLit 1.2)%float (ch - pad * lit 1.2)%js;
    Hardware.same (Hardware.ofZ ch - Hardware.ofZ pad * Hardware.ofLit 0.6)%float (ch - pad * lit 0.6)%js;
    Hardware.same (Hardware.ofZ cw - Hardware.ofLit 60.25 - Hardware.ofZ pad)%float (cw - lit 60.25 - pad)%js ].

(** [contain] on the processor's floats. *)
Definition hardwareContain (iw ih maxW maxH : Z) : option (Z * Z) :=
  let r := Hardware.min (Hardware.ofZ maxW / Hardware.ofZ iw)%float
                        (Hardware.ofZ maxH / Hardware.ofZ ih)%float in
  match Hardware.toQ (Hardware.ofZ iw * r)%float,
        Hardware.toQ (Hardware.ofZ ih * r)%float with
  | Some w, Some h => Some (JS.round w, JS.round h)
  | _, _ => None
  end.

Definition sameContain (iw ih maxW maxH : Z) : bool :=
  match hardwareContain iw ih maxW maxH with
  | Some (w, h) =>
      (w =? fst (contain iw ih maxW maxH)) && (h =? snd (contain iw ih maxW maxH))
  | None => false
  end.

(** Some picture sizes, fitted into the box of one table entry. *)
Definition containChecks (r : Ratio) (q : Quality) : list bool :=
  let '(w, h) := ratios r in
  let cw := JS.round (w * qualityScale q)%js in
  let ch := JS.round (h * qualityScale q)%js in
  let pad := padOf cw ch in
  map (fun '(pw, ph) => sameContain pw ph (cw - pad * 2) (ch - pad * 2))
      [(800, 600); (1920, 1080); (3024, 4032); (1, 1); (17, 4999); (4999, 17);
       (1023, 1025); (333, 777)].

(** *** Handlers *)

(** The four cells and the store a failing action must leave alone. *)
Definition untouched (sys sys' : Sys) : Prop :=
  img (snd sys') = img (snd sys) /\
  variants (snd sys') = variants (snd sys) /\
  copies (snd sys') = copies (snd sys) /\
  opsUsed (snd sys') = opsUsed (snd sys) /\
  localStorage (fst sys') = localStorage (fst sys).

(** A handler's report: the message shown, the busy flag cleared. *)
Definition reported (s : State) (msg : string) : State :=
  mkState (img s) false (Some msg) (options s) (variants s) (copies s) (opsUsed s).

(** The state after a handler that went through. *)
Definition idle (s : State) : State :=
  mkState (img s) false (error s) (options s) (variants s) (copies s) (opsUsed s).


(** The state after a generation that went through, holding the count
    [v]. *)
Definition generated (s : State) (out : list DataUrl) (v : JS.number) : State :=
  mkState (img s) false None (options s) out (buildCopies (options s)) v.

(** The state after a generation whose pictures were made and whose
    count could not be written. *)
Definition unsaved (s : State) (out : list DataUrl) (msg : string) : State :=
  mkState (img s) false (Some msg) (options s) out (buildCopies (options s))
          (opsUsed s).

(** The browser after more downloads and warnings. *)
Definition andThen (w : World) (es : list Effect) : World :=
  mkWorld (localStorage w) (today w) (now w) (measureText w) (zipFailure w)
          (setItemFailure w) (effects w ++ es).

(** What the fallback of [exportAll] sends to the browser. *)
Definition fallbackEffects (s : State) (zipErr : JS.Error) : list Effect :=
  ConsoleWarn "ZIP failed, fallback to individual downloads" zipErr
  :: imap (fun i v => Download (DataBlob v) (pngName (Z.of_nat i))) (variants s).

(** "Blocked with the quota error", read to the letter. *)
Definition blockedByQuota (sys : Sys) : Prop :=
  let sys' := fst (runGenerate sys) in
  error (snd sys') = Some "Batas 30 operasi/hari tercapai." /\
  untouched sys sys'.

(** "The file became the current picture": the handler went through,
    shows no error, and holds the file's data URL. *)
Definition accepts (f : File) (sys : Sys) : Prop :=
  snd (onUpload (Some f) sys) = JS.Ok tt /\
  error (snd (fst (onUpload (Some f) sys))) = None /\
  img (snd (fst (onUpload (Some f) sys))) = Some (FileUrl (type f) (picture f)).




(** *** The counter and its key *)

(** Text made of decimal digits only. *)
Fixpoint isDigits (s : string) : bool :=
  match s with
  | EmptyString => true
  | String c r => JS.isDigit c && isDigits r
  end.

(** [Number(s)] is the integer [z]. *)
Definition reads (s : string) (z : Z) : bool :=
  match JS.Number s with
  | JS.Num v => v =? z
  | _ => false
  end.

(** The shape [pp_ops_YYYY-MM-DD] of the key of day [d]. *)
Definition keyShape (d : Date) (key : string) : Prop :=
  exists Y M D : string,
    key = "pp_ops_" +:+ Y +:+ "-" +:+ M +:+ "-" +:+ D /\
    (String.length Y = 4 /\ String.length M = 2 /\ String.length D = 2)%nat /\
    (isDigits Y = true /\ isDigits M = true /\ isDigits D = true) /\
    JS.Number Y = JS.Num (getFullYear d) /\
    JS.Number M = JS.Num (getMonth d + 1) /\
    JS.Number D = JS.Num (getDate d).

(** The browser with one more stored item. *)
Definition stored (w : World) (key value : string) : World :=
  mkWorld (<[key := value]> (localStorage w)) (today w) (now w)
          (measureText w) (zipFailure w) (setItemFailure w) (effects w).

(** What the proof of the daily cap carries along: the stored counter of
    the day is an integer between 0 and the count the page holds, that
    count is at most 30, and nothing is stored for a later day. *)
Definition counterInv (sys : Sys) : Prop :=
  validDate (today (fst sys)) /\
  (exists n k, counter sys = JS.Num n /\ opsUsed (snd sys) = JS.Num k /\
               0 <= n <= k /\ k <= 30) /\
  (forall d, validDate d -> dayIndex (today (fst sys)) < dayIndex d ->
             localStorage (fst sys) !! keyFor d = None).

(** Same store, same day, same count. *)
Definition sameCounter (sys sys' : Sys) : Prop :=
  localStorage (fst sys') = localStorage (fst sys) /\
  today (fst sys') = today (fst sys) /\
  opsUsed (snd sys') = opsUsed (snd sys).

(** *** Sample inputs *)

Definition sampleUpload : DataUrl := FileUrl "image/png" (Some (800, 600)).
Definition sampleHigh : GenOptions :=
  mkGenOptions photo "Studio softbox, glossy table, minimal shadows" ""
               ratio_1_1 high false.
Definition samplePoster : GenOptions :=
  mkGenOptions poster "Minimal Swiss poster, bold grid, large type" ""
               ratio_9_16 ultra true.

Definition sampleWorld : World :=
  mkWorld ∅ (mkDate 2024 0 15) 1705312800000 (fun _ _ => 60%Q) None None [].

Definition sampleExhausted : State :=
  mkState (Some sampleUpload) false None sampleHigh [] [] (JS.Num 30).
Definition sampleNoImage : State :=
  mkState None false None sampleHigh [] [] (JS.Num 30).
Definition sampleUnreadable : File := mkFile "image/png" false None.
Definition sampleBroken : DataUrl := FileUrl "image/png" None.
Definition sampleOffline : World :=
  mkWorld ∅ (mkDate 2024 0 15) 1705312800000 (fun _ _ => 60%Q)
          (Some (JS.mkError "Failed to fetch dynamically imported module")) None [].
Definition sampleWithVariant : State :=
  mkState (Some sampleUpload) false None sampleHigh
          [CanvasPng 1024 1024 []] [] (JS.Num 1).

Definition sampleFile : File := mkFile "image/png" true (Some (800, 600)).

Definition sampleBrokenVariant : State :=
  mkState (Some sampleUpload) false None sampleHigh [sampleBroken] [] (JS.Num 1).
Definition sampleFresh : State :=
  mkState None false None sampleHigh [] [] (JS.Num 0).

Definition sampleReady : State :=
  mkState (Some sampleUpload) false None sampleHigh [] [] (JS.Num 0).

(** Two pages opened on a first visit; the first generates thirty times,
    then the second once. *)
Definition twoPages : list Step :=
  [Open; Open; Act 0 (Upload sampleFile); Act 1 (Upload sampleFile)]
    ++ replicate 30 (Act 0 Generate) ++ [Act 1 Generate].

(** A first visit, an upload, one generation. *)
Definition sampleAfterGenerate : Sys :=
  fst (perform Generate
         (fst (perform (Upload sampleFile) (sampleWorld, mount sampleWorld)))).

(** ** Vocabulary of the further properties *)

Definition background (m : Mode) : Color :=
  Css (match m with poster => "#0a0a0a" | photo => "#111" end).

(** Where [generateVariants] puts a picture that [contain] fitted to
    [fit]. *)
Definition placed (cw ch : Z) (fit : Z * Z) : Q * Q :=
  (((cw - fst fit) / 2)%js, ((ch - snd fit) / 2)%js).

(** The picture of a variant: the first thing drawn after the
    background. *)
Definition layers (v : DataUrl) : option (DrawOp * DrawOp) :=
  match drawnOn v with
  | bg :: pic :: _ => Some (bg, pic)
  | _ => None
  end.

(** [n] clicks on Generate, one after the other. *)
Fixpoint generations (n : nat) (sys : Sys) : Sys :=
  match n with
  | O => sys
  | S n' => fst (runGenerate (generations n' sys))
  end.


(** The named pictures a download hands over. *)
Definition delivered (e : Effect) : list (string * DataUrl) :=
  match e with
  | Download (ZipBlob files) _ => files
  | Download (DataBlob v) name => [(name, v)]
  | ConsoleWarn _ _ => []
  end.

(** What a handler added to the browser's record. *)
Definition added (w w' : World) : list Effect :=
  drop (length (effects w)) (effects w').

(** The options with another custom prompt. *)
Definition withPrompt (opts : GenOptions) (p : string) : GenOptions :=
  mkGenOptions (mode opts) (style opts) p (ratio opts) (quality opts)
               (watermark opts).

(** A store whose entry of the day is not a number. *)
Definition sampleSpoilt : World :=
  mkWorld {[ "pp_ops_2024-01-15" := "abc" ]} (mkDate 2024 0 15) 1705312800000
          (fun _ _ => 60%Q) None None [].
Definition sampleSpoiltPage : State :=
  mkState (Some sampleUpload) false None sampleHigh [] [] JS.NaN.


(** The value of two hexadecimal digits. *)
Definition twoHex (c1 c2 : ascii) : option Z :=
  match JS.hexDigit c1, JS.hexDigit c2 with
  | Some a, Some b => Some (16 * a + b)
  | _, _ => None
  end.

(** Every byte, and [parseInt] checked on every text of one and of two
    hexadecimal digits. *)
Definition allAscii : list ascii := map ascii_of_nat (seq 0 256).

Definition hexChecks : bool :=
  forallb (fun c1 =>
             match JS.hexDigit c1 with
             | Some a =>
                 JS.eqb (JS.parseInt16 (String c1 EmptyString)) (JS.Num a)
                 && forallb (fun c2 =>
                               match twoHex c1 c2 with
                               | Some v =>
                                   JS.eqb (JS.parseInt16 (String c1 (String c2 EmptyString)))
                                          (JS.Num v)
                                   && (0 <=? v) && (v <=? 255)
                               | None => true
                               end) allAscii
             | None => true
             end) allAscii.

(** * Properties *)

(** ** Rounding and fitting *)

Section Rounding.
Import Binary64.

Lemma pow2_pos k : (0 < pow2 k)%Q.
Proof. apply Qpower_0_lt. reflexivity. Qed.

Lemma pow2_plus a b : (pow2 (a + b) == pow2 a * pow2 b)%Q.
Proof. apply Qpower_plus. discriminate. Qed.

Lemma pow2_Z k : 0 <= k -> (pow2 k == inject_Z (2 ^ k))%Q.
Proof.
  intros Hk. unfold pow2. rewrite Zpower_Qpower by exact Hk. reflexivity.
Qed.

(** The binade of a positive number starts at or below it. *)
Lemma binade_le a : (0 < a)%Q -> (pow2 (binade a) <= a)%Q.
Proof.
  intros Ha. unfold binade.
  set (e0 := Z.log2 (Qnum a) - Z.log2 (Z.pos (Qden a))).
  destruct (Qle_bool (pow2 e0) a) eqn:E; [apply Qle_bool_iff; exact E |].
  destruct a as [n d]. unfold Qlt in Ha. cbn in Ha. cbn [Qnum Qden] in e0.
  assert (Hn : 0 < n) by lia.
  pose proof (Z.log2_spec n Hn) as [Hln _].
  pose proof (Z.log2_spec (Z.pos d) eq_refl) as [_ Hld].
  pose proof (Z.log2_nonneg n) as Hln0.
  pose proof (Z.log2_nonneg (Z.pos d)) as Hld0.
  replace (e0 - 1) with (Z.log2 n + - Z.succ (Z.log2 (Z.pos d)))
    by (unfold e0; lia).
  rewrite pow2_plus. unfold pow2 at 2. rewrite Qpower_opp.
  fold (pow2 (Z.succ (Z.log2 (Z.pos d)))).
  rewrite !pow2_Z by lia.
  set (A := 2 ^ Z.log2 n) in *.
  set (B := 2 ^ Z.succ (Z.log2 (Z.pos d))) in *.
  assert (HB : 0 < B) by lia.
  assert (HA : 0 < A) by (unfold A; apply Z.pow_pos_nonneg; lia).
  rewrite (Qmake_Qdiv n d).
  apply Qle_shift_div_l; [reflexivity |].
  unfold Qdiv. rewrite <- Qmult_assoc, (Qmult_comm (/ B)), Qmult_assoc.
  change (A * Z.pos d * / B)%Q with ((A * Z.pos d) / B)%Q.
  apply Qle_shift_div_r;
    [change 0%Q with (inject_Z 0); rewrite <- Zlt_Qlt; exact HB |].
  rewrite <- !inject_Z_mult, <- Zle_Qle. nia.
Qed.

Lemma rne_le t : (rne t <= t + (1 # 2))%Q.
Proof.
  unfold rne. pose proof (Qfloor_le t) as Hf.
  destruct (Qcompare_spec (t - Qfloor t) (1 # 2)) as [He | Hl | Hg];
    [destruct (Z.even (Qfloor t)) | |];
    rewrite ?inject_Z_plus; change (inject_Z 1) with 1%Q;
    set (f := inject_Z (Qfloor t)) in *; lra.
Qed.

Lemma rne_nonneg t : (0 <= t)%Q -> 0 <= rne t.
Proof.
  intros Ht. unfold rne.
  assert (Hf : 0 <= Qfloor t)
    by (rewrite <- (Qfloor_Z 0); apply Qfloor_resp_le; exact Ht).
  destruct (_ ?= _)%Q; [destruct (Z.even _) | |]; lia.
Qed.

(** Rounding a positive number adds at most half a unit in the last
    place, which is at most the number times 2^-53. *)
Lemma nearest_le a : (0 < a)%Q -> (nearest a <= a * (1 + pow2 (-53)))%Q.
Proof.
  intros Ha. unfold nearest.
  pose proof (binade_le a Ha) as He.
  set (e := binade a) in *.
  pose proof (pow2_pos (e - 52)) as Hulp.
  pose proof (rne_le (a / pow2 (e - 52))) as Hm.
  assert (H1 : (rne (a / pow2 (e - 52)) * pow2 (e - 52)
                <= (a / pow2 (e - 52) + (1 # 2)) * pow2 (e - 52))%Q)
    by (apply Qmult_le_compat_r; [exact Hm | apply Qlt_le_weak, Hulp]).
  assert (H2 : ((a / pow2 (e - 52) + (1 # 2)) * pow2 (e - 52)
                == a + pow2 e * pow2 (-53))%Q).
  { replace (e - 52) with (e + -53 + 1) by lia.
    rewrite !pow2_plus.
    pose proof (pow2_pos e). pose proof (pow2_pos (-53)).
    change (pow2 1) with 2%Q. field.
    split; apply Qnot_eq_sym, Qlt_not_eq; assumption. }
  rewrite H2 in H1.
  assert (H3 : (pow2 e * pow2 (-53) <= a * pow2 (-53))%Q)
    by (apply Qmult_le_compat_r; [exact He | apply Qlt_le_weak, pow2_pos]).
  lra.
Qed.

Lemma fl_le x : (0 <= x)%Q -> (fl x <= x * (1 + pow2 (-53)))%Q.
Proof.
  intros Hx. destruct x as [[| n | n] d]; unfold fl; cbn [Qnum].
  - discriminate.
  - apply nearest_le. reflexivity.
  - exfalso. apply Hx. reflexivity.
Qed.

Lemma fl_nonneg x : (0 <= x)%Q -> (0 <= fl x)%Q.
Proof.
  intros Hx. destruct x as [[| n | n] d]; unfold fl; cbn [Qnum].
  - discriminate.
  - unfold nearest. apply Qmult_le_0_compat; [| apply Qlt_le_weak, pow2_pos].
    change 0%Q with (inject_Z 0). rewrite <- Zle_Qle. apply rne_nonneg.
    apply Qle_shift_div_l; [apply pow2_pos |]. rewrite Qmult_0_l. exact Hx.
  - exfalso. apply Hx. reflexivity.
Qed.

Lemma round_below (x : Q) (z : Z) : (x < z + (1 # 2))%Q -> JS.round x <= z.
Proof.
  intros Hx. unfold JS.round.
  pose proof (Qfloor_le (x + (1 # 2))) as Hf.
  assert (H : (inject_Z (Qfloor (x + (1 # 2))) < inject_Z (z + 1))%Q)
    by (rewrite inject_Z_plus; change (inject_Z 1) with 1%Q; lra).
  rewrite <- Zlt_Qlt in H. lia.
Qed.

(** A side scaled by a factor that is at most the rounded quotient of
    the box by the side stays inside a box below 2^51. *)
Lemma scaled_le (i m : Z) (r : Q) :
  0 < i -> 0 < m < 2 ^ 51 -> (0 <= r)%Q -> (r <= (m / i)%js)%Q ->
  JS.round (i * r)%js <= m.
Proof.
  intros Hi [Hm Hm51] Hr0 Hr.
  assert (HiQ : (0 < i)%Q) by (change 0%Q with (inject_Z 0); rewrite <- Zlt_Qlt; exact Hi).
  assert (HmQ : (0 < m)%Q) by (change 0%Q with (inject_Z 0); rewrite <- Zlt_Qlt; exact Hm).
  assert (Hm51Q : (m <= 2251799813685247)%Q)
    by (change 2251799813685247%Q with (inject_Z 2251799813685247);
        rewrite <- Zle_Qle; lia).
  assert (Hq0 : (0 <= m / i)%Q)
    by (apply Qle_shift_div_l; [exact HiQ | rewrite Qmult_0_l; lra]).
  pose proof (fl_le (m / i)%Q Hq0) as Hq. fold (div m i) in Hq.
  assert (Hy0 : (0 <= i * r)%Q) by (apply Qmult_le_0_compat; lra).
  pose proof (fl_le (i * r)%Q Hy0) as Hf. fold (mul i r) in Hf.
  assert (Hy : (i * r <= m * (1 + pow2 (-53)))%Q).
  { apply Qle_trans with (i * (m / i * (1 + pow2 (-53))))%Q.
    - apply Qmult_le_l; [exact HiQ | lra].
    - apply Qle_lteq. right. field. intros E. rewrite E in HiQ. discriminate. }
  apply round_below.
  change (pow2 (-53)) with (1 # 9007199254740992)%Q in *.
  set (Y := (i * r)%Q) in *. set (F := mul i r) in *.
  set (M := inject_Z m) in *. lra.
Qed.

End Rounding.

(** C10, as the code has it.  For positive [iw] and [ih] and for a box
    [maxW] by [maxH] of positive integers below 2^51, [contain] scales
    both sides by [min(maxW/iw, maxH/ih)], every operation in binary64,
    and the rounded result fits the box: [w <= maxW] and [h <= maxH]. *)
Theorem contain_fits (iw ih maxW maxH : Z) :
  0 < iw -> 0 < ih -> 0 < maxW < 2 ^ 51 -> 0 < maxH < 2 ^ 51 ->
  let r := Qmin (maxW / iw)%js (maxH / ih)%js in
  contain iw ih maxW maxH = (JS.round (iw * r)%js, JS.round (ih * r)%js) /\
  fitsBox iw ih maxW maxH.
Proof.
  intros Hiw Hih HW HH r. split; [reflexivity |].
  assert (Hr0 : (0 <= r)%Q).
  { apply Q.min_glb; apply fl_nonneg; apply Qle_shift_div_l;
      try (change 0%Q with (inject_Z 0); rewrite <- Zlt_Qlt; assumption);
      rewrite Qmult_0_l; change 0%Q with (inject_Z 0); rewrite <- Zle_Qle; lia. }
  unfold fitsBox, contain; fold r; cbn [fst snd]. split.
  - apply scaled_le; [exact Hiw | exact HW | exact Hr0 | apply Q.le_min_l].
  - apply scaled_le; [exact Hih | exact HH | exact Hr0 | apply Q.le_min_r].
Qed.

Lemma contain_fits_witness :
  contain 800 600 1119 1119 = (1119, 839) /\
  fitsBox 800 600 1119 1119.
Proof.
  split; [vm_compute; reflexivity |].
  apply (contain_fits 800 600 1119 1119); lia.
Defined.

(** C10, as stated, fails: in binary64 the quotient (2^53 - 1) / 3
    rounds up to a multiple of 1/2, three times it rounds up to 2^53,
    and the scaled width exceeds the box. *)
Lemma contain_exceeds_box :
  contain 3 1 9007199254740991 9007199254740991
    = (9007199254740992, 3002399751580331) /\
  ~ fitsBox 3 1 9007199254740991 9007199254740991.
Proof.
  assert (H : contain 3 1 9007199254740991 9007199254740991
              = (9007199254740992, 3002399751580331))
    by (vm_compute; reflexivity).
  split; [exact H |].
  unfold fitsBox. rewrite H. cbn [fst snd]. lia.
Qed.

(** ** The processor agrees

    On every product and quotient that [generateVariants] rounds for
    the twelve table entries, on [contain] for pictures of several sizes
    in the boxes of the table, and on the input above that escapes its
    box, the processor's binary64 arithmetic returns what [Binary64]
    returns. *)

Lemma hardware_agrees_on_table r q :
  forallb (fun c => c) (tableChecks r q) = true.
Proof. destruct r, q; vm_compute; reflexivity. Qed.

Lemma hardware_agrees_on_contain r q :
  forallb (fun c => c) (containChecks r q) = true.
Proof. destruct r, q; vm_compute; reflexivity. Qed.

Lemma hardware_agrees_on_box :
  let M := 9007199254740991 in
  Hardware.same (Hardware.ofZ M / Hardware.ofZ 3)%float (M / 3)%js = true /\
  Hardware.same (Hardware.ofZ 3 * (Hardware.ofZ M / Hardware.ofZ 3))%float
                (3 * (M / 3))%js = true /\
  Hardware.toQ (Hardware.ofZ 3 * (Hardware.ofZ M / Hardware.ofZ 3))%float
    = Some (inject_Z 9007199254740992) /\
  hardwareContain 3 1 M M = Some (contain 3 1 M M).
Proof. vm_compute. repeat split; reflexivity. Qed.

(** ** What [generateVariants] draws *)

(** The grid loop ends when its step is positive, and only adds plain
    rectangles. *)
Lemma gridLoop_ok fuel : forall gx stop step pad ch ctx,
  0 < step -> stop - gx <= Z.of_nat fuel ->
  exists rects,
    gridLoop fuel gx stop step pad ch ctx
      = JS.Ok (Ctx.mk (Ctx.cur ctx) (Ctx.saved ctx) (Ctx.drawn ctx ++ rects)) /\
    Forall plain rects.
Proof.
  induction fuel as [| fuel IH]; intros gx stop step pad ch ctx Hstep Hfuel;
    cbn [gridLoop]; destruct (Z.ltb_spec gx stop) as [Hlt | Hge]; try lia.
  - exists []. rewrite app_nil_r. destruct ctx; split; [reflexivity | constructor].
  - destruct (IH (gx + step) stop step pad ch
                 (Ctx.fillRect gx pad 1 (ch - pad * 2)%Z ctx))
      as (rects & -> & Hall); [lia | lia |].
    eexists (_ :: rects). cbn [Ctx.fillRect Ctx.cur Ctx.saved Ctx.drawn].
    rewrite <- app_assoc. split; [reflexivity |].
    constructor; [split; reflexivity | exact Hall].
  - exists []. rewrite app_nil_r. destruct ctx; split; [reflexivity | constructor].
Qed.

Lemma plain_filters rects : Forall plain rects -> omap filterOf rects = [].
Proof.
  induction 1 as [| op rects [Hf _] _ IH]; [reflexivity |].
  cbn [omap list_omap]. rewrite Hf. exact IH.
Qed.

Lemma plain_watermark rects :
  Forall plain rects -> existsb isWatermark rects = false.
Proof.
  induction 1 as [| op rects [_ Hw] _ IH]; [reflexivity |].
  cbn [existsb]. rewrite Hw. exact IH.
Qed.

(** Unfold the context operations, and nothing of the arithmetic. *)
Ltac run_ctx :=
  lazy beta iota zeta delta
    [pngSize drawnOn Canvas.toDataURL Canvas.width Canvas.height Canvas.ctx
     Ctx.fillText Ctx.fillRect Ctx.drawImage Ctx.set_font Ctx.set_fillStyle
     Ctx.set_globalAlpha Ctx.set_filter Ctx.restore Ctx.save Ctx.fresh
     Ctx.drawn Ctx.cur Ctx.saved
     Ctx.fillStyle Ctx.font Ctx.globalAlpha Ctx.filter].

(** One turn of the loop: the canvas has the computed size, the picture
    is drawn once under the turn's preset, and the stamp comes last, if
    at all. *)
Lemma drawVariant_summary mt base opts presets (w h : Z) q i p :
  let cw := JS.round (w * q)%js in
  let ch := JS.round (h * q)%js in
  presetAt presets i = JS.Ok p ->
  0 <= padOf cw ch ->
  0 < JS.round ((cw - padOf cw ch * 2)%Z / 6)%js ->
  exists v,
    drawVariant mt base opts presets w h q i = JS.Ok v /\
    summary v = (Some (cw, ch), [Preset.filter p], watermark opts) /\
    (watermark opts = true -> last (drawnOn v) = Some (stamp mt cw ch)).
Proof.
  intros cw ch Hp Hpad Hstep. unfold drawVariant.
  fold cw ch. fold (padOf cw ch). rewrite Hp. cbn [JS.bind].
  destruct (mode opts).
  - cbn [JS.bind]. eexists. split; [reflexivity |].
    destruct (watermark opts); (split; [reflexivity |]);
      [intros _; reflexivity | discriminate].
  - cbn [JS.bind].
    match goal with
    | |- context [gridLoop ?f ?gx ?stop ?step ?pd ?c ?ctx] =>
        destruct (gridLoop_ok f gx stop step pd c ctx) as (rects & -> & Hall);
          [exact Hstep | lia |]
    end.
    cbn [JS.bind]. eexists. split; [reflexivity |].
    unfold summary, filtersApplied, hasWatermark.
    destruct (watermark opts); run_ctx;
      rewrite ?omap_app, ?existsb_app,
              (plain_filters _ Hall), (plain_watermark _ Hall);
      (split; [reflexivity |]); [intros _ | discriminate].
    rewrite last_snoc. reflexivity.
Qed.

(** On the twelve table entries the padding is not negative and the
    grid step is positive. *)
Lemma table_grid r q :
  let cw := JS.round (fst (ratios r) * qualityScale q)%js in
  let ch := JS.round (snd (ratios r) * qualityScale q)%js in
  0 <= padOf cw ch /\ 0 < JS.round ((cw - padOf cw ch * 2)%Z / 6)%js.
Proof.
  destruct r, q; split;
    (apply Z.leb_le || apply Z.ltb_lt); vm_compute; reflexivity.
Qed.

Lemma presets_four opts :
  exists p0 p1 p2 p3, buildPresetFilters opts = [p0; p1; p2; p3].
Proof.
  unfold buildPresetFilters. destruct (mode opts); cbn [rev app]; eauto.
Qed.

(** Once the source picture decodes, [generateVariants] returns one PNG
    per preset, in the order of the preset list, each of the size the
    options ask for and stamped as they ask. *)
Lemma generateVariants_summary mt src opts base :
  loadImage src = JS.Ok base ->
  exists out,
    generateVariants mt src opts = JS.Ok out /\
    Forall2 (fun v p =>
               summary v = (Some (canvasSize opts), [Preset.filter p], watermark opts) /\
               (watermark opts = true ->
                last (drawnOn v)
                = Some (stamp mt (fst (canvasSize opts)) (snd (canvasSize opts)))))
            out (buildPresetFilters opts).
Proof.
  intros Hload. unfold generateVariants, canvasSize.
  destruct (table_grid (ratio opts) (quality opts)) as [Hpad Hstep].
  destruct (ratios (ratio opts)) as [w h]. cbn [fst snd] in *.
  rewrite Hload. cbn [JS.bind variantLoop].
  destruct (presets_four opts) as (p0 & p1 & p2 & p3 & ->).
  set (ps := [p0; p1; p2; p3]).
  set (q := qualityScale (quality opts)) in *.
  destruct (drawVariant_summary mt base opts ps w h q 0 p0 eq_refl Hpad Hstep)
    as (v0 & -> & S0).
  destruct (drawVariant_summary mt base opts ps w h q 1 p1 eq_refl Hpad Hstep)
    as (v1 & -> & S1).
  destruct (drawVariant_summary mt base opts ps w h q 2 p2 eq_refl Hpad Hstep)
    as (v2 & -> & S2).
  destruct (drawVariant_summary mt base opts ps w h q 3 p3 eq_refl Hpad Hstep)
    as (v3 & -> & S3).
  cbn [JS.bind]. eexists. split; [reflexivity |].
  subst ps. do 4 (constructor; [assumption |]). constructor.
Qed.

Lemma Forall2_left {A B} (R : A -> B -> Prop) (Q : A -> Prop) l k :
  Forall2 R l k -> (forall x y, R x y -> Q x) -> Forall Q l.
Proof. induction 1; intros HQ; constructor; eauto. Qed.

Lemma generateVariants_four mt src opts base :
  loadImage src = JS.Ok base ->
  exists out, generateVariants mt src opts = JS.Ok out /\ length out = 4%nat.
Proof.
  intros Hload.
  destruct (generateVariants_summary mt src opts base Hload) as (out & Hgen & Hall).
  exists out. split; [exact Hgen |].
  apply Forall2_length in Hall. rewrite Hall.
  destruct (presets_four opts) as (p0 & p1 & p2 & p3 & ->). reflexivity.
Qed.

(** On the table, rounding the binary64 product gives what rounding the
    exact product gives. *)
Lemma canvasSize_exact opts :
  canvasSize opts
  = (JS.round (fst (ratios (ratio opts)) * multiplier (quality opts))%Q,
     JS.round (snd (ratios (ratio opts)) * multiplier (quality opts))%Q).
Proof.
  unfold canvasSize. destruct (ratio opts), (quality opts); vm_compute; reflexivity.
Qed.

(** C2, as the code has it.  For every aspect ratio and quality, each of
    the four canvases is as wide and as high as the table entry times the
    quality multiplier, rounded to the nearest integer. *)
Theorem canvas_size_rounded mt src opts base :
  loadImage src = JS.Ok base ->
  map ratios [ratio_1_1; ratio_4_5; ratio_16_9; ratio_9_16]
    = [(1024, 1024); (1024, 1280); (1280, 720); (1080, 1920)] /\
  map qualityScale [standard; high; ultra] = [1; lit 1.3; lit 1.6]%Q /\
  exists out,
    generateVariants mt src opts = JS.Ok out /\
    length out = 4%nat /\
    Forall (fun v =>
              pngSize v
              = Some (JS.round (fst (ratios (ratio opts)) * multiplier (quality opts))%Q,
                      JS.round (snd (ratios (ratio opts)) * multiplier (quality opts))%Q))
           out.
Proof.
  intros Hload. split; [reflexivity | split; [reflexivity |]].
  destruct (generateVariants_summary mt src opts base Hload) as (out & Hgen & Hall).
  destruct (generateVariants_four mt src opts base Hload) as (out' & Hgen' & Hlen).
  rewrite Hgen in Hgen'. injection Hgen' as <-.
  exists out. split; [exact Hgen | split; [exact Hlen |]].
  apply (Forall2_left _ _ _ _ Hall). intros v p [Hs _].
  unfold summary in Hs. injection Hs as Hsize _ _.
  rewrite Hsize, canvasSize_exact. reflexivity.
Qed.

Lemma canvas_size_rounded_witness :
  exists out,
    generateVariants (fun _ _ => 60%Q) sampleUpload sampleHigh = JS.Ok out /\
    length out = 4%nat /\
    Forall (fun v => pngSize v = Some (1331, 1331)) out.
Proof.
  destruct (canvas_size_rounded (fun _ _ => 60%Q) sampleUpload sampleHigh
              (Image.mk sampleUpload 800 600) eq_refl) as (_ & _ & H).
  exact H.
Defined.

(** C2, as stated, fails: at ratio 1:1 and quality high the canvases are
    1331 wide, and 1024 times 1.3 is 1331.2. *)
Lemma canvas_size_not_exact :
  exists out,
    generateVariants (fun _ _ => 60%Q) sampleUpload sampleHigh = JS.Ok out /\
    Forall (fun v => pngSize v = Some (1331, 1331) /\ ~ exactlyScaled sampleHigh v) out.
Proof.
  destruct (generateVariants_summary (fun _ _ => 60%Q) sampleUpload sampleHigh
              (Image.mk sampleUpload 800 600) eq_refl) as (out & Hgen & Hall).
  exists out. split; [exact Hgen |].
  apply (Forall2_left _ _ _ _ Hall). intros v p [Hs _].
  unfold summary in Hs. injection Hs as Hsize _ _.
  change (canvasSize sampleHigh) with (1331, 1331) in Hsize.
  split; [exact Hsize |].
  intros (w & h & Hsize' & Hw & _). rewrite Hsize in Hsize'.
  injection Hsize' as <- <-. revert Hw. vm_compute. discriminate.
Qed.

(** C3. For every options value, [generateVariants] returns exactly four
    variants; the picture is drawn on the i-th under the filter of the
    i-th preset; the presets are clean, moody, pop, matte, each built on
    the base filter text, and the list is reversed in poster mode. *)
Theorem four_presets_in_order mt src opts base :
  loadImage src = JS.Ok base ->
  let base_ := "contrast(1.05) saturate(1.05)" in
  let list_ :=
    [ Preset.mk "clean" (base_ +:+ " brightness(1.03)");
      Preset.mk "moody" (base_ +:+ " brightness(0.92) contrast(1.15)");
      Preset.mk "pop" (base_ +:+ " brightness(1.1) saturate(1.25)");
      Preset.mk "matte" (base_ +:+ " brightness(1.0) contrast(0.95)") ] in
  buildPresetFilters opts
    = match mode opts with poster => rev list_ | photo => list_ end /\
  exists out,
    generateVariants mt src opts = JS.Ok out /\
    length out = 4%nat /\
    map filtersApplied out
      = map (fun p => [Preset.filter p]) (buildPresetFilters opts).
Proof.
  intros Hload base_ list_. split; [reflexivity |].
  destruct (generateVariants_summary mt src opts base Hload) as (out & Hgen & Hall).
  destruct (generateVariants_four mt src opts base Hload) as (out' & Hgen' & Hlen).
  rewrite Hgen in Hgen'. injection Hgen' as <-.
  exists out. split; [exact Hgen | split; [exact Hlen |]].
  clear Hgen Hlen. induction Hall as [| v p out ps [Hs _] _ IH]; [reflexivity |].
  cbn [map]. rewrite IH. f_equal.
  unfold summary in Hs. injection Hs as _ Hf _. exact Hf.
Qed.

Lemma four_presets_in_order_witness :
  exists out,
    generateVariants (fun _ _ => 60%Q) sampleUpload samplePoster = JS.Ok out /\
    length out = 4%nat /\
    map filtersApplied out
      = [ ["contrast(1.05) saturate(1.05) brightness(1.0) contrast(0.95)"];
          ["contrast(1.05) saturate(1.05) brightness(1.1) saturate(1.25)"];
          ["contrast(1.05) saturate(1.05) brightness(0.92) contrast(1.15)"];
          ["contrast(1.05) saturate(1.05) brightness(1.03)"] ].
Proof.
  destruct (four_presets_in_order (fun _ _ => 60%Q) sampleUpload samplePoster
              (Image.mk sampleUpload 800 600) eq_refl) as (_ & H).
  exact H.
Defined.

(** C4. For every options value, [generateVariants] returns four
    variants, and on each of them the watermark text is on the canvas if
    and only if the watermark option is on; when it is on, it is the last
    thing drawn, its right end and its baseline one padding away from
    the right and bottom edges.  The badge the page lays over a variant
    tile follows the same option. *)
Theorem watermark_iff_option mt src opts base :
  loadImage src = JS.Ok base ->
  (forall s, badge s = Some "ProductPro" <-> watermark (options s) = true) /\
  exists out,
    generateVariants mt src opts = JS.Ok out /\
    length out = 4%nat /\
    Forall (fun v =>
              (hasWatermark v = true <-> watermark opts = true) /\
              (watermark opts = true ->
               last (drawnOn v)
               = Some (stamp mt (fst (canvasSize opts)) (snd (canvasSize opts)))))
           out.
Proof.
  intros Hload. split.
  - intros s. unfold badge. destruct (watermark (options s)); split; congruence.
  - destruct (generateVariants_summary mt src opts base Hload) as (out & Hgen & Hall).
    destruct (generateVariants_four mt src opts base Hload) as (out' & Hgen' & Hlen).
    rewrite Hgen in Hgen'. injection Hgen' as <-.
    exists out. split; [exact Hgen | split; [exact Hlen |]].
    apply (Forall2_left _ _ _ _ Hall). intros v p [Hs Hlast].
    unfold summary in Hs. injection Hs as _ _ Hw. rewrite Hw.
    split; [tauto | exact Hlast].
Qed.

Lemma watermark_iff_option_witness :
  exists out,
    generateVariants (fun _ _ => 60%Q) sampleUpload samplePoster = JS.Ok out /\
    length out = 4%nat /\
    Forall (fun v => hasWatermark v = true) out.
Proof.
  destruct (watermark_iff_option (fun _ _ => 60%Q) sampleUpload samplePoster
              (Image.mk sampleUpload 800 600) eq_refl)
    as (_ & out & Hgen & Hlen & Hall).
  exists out. split; [exact Hgen | split; [exact Hlen |]].
  eapply Forall_impl; [exact Hall |]. intros v [Hiff _]. apply Hiff. reflexivity.
Defined.

(** ** The handlers *)

(** Run the monad's plumbing, and nothing of what it carries. *)
Ltac run_handler :=
  lazy beta iota zeta delta
      [mbind ret throw lift try_catch try_finally getWorld setState
       setImg setBusy setError setOptions setVariants setCopies setOpsUsed
       setItem emit triggerDownload fst snd
       img busy error options variants copies opsUsed
       localStorage today now measureText zipFailure setItemFailure effects].

(** C1, as the code has it.  When the remaining quota is not positive,
    generation is blocked: the handler reports an error, the quota error
    if a picture is uploaded and the missing-picture error if none is,
    and changes neither the variants, the copies, the counter nor
    anything in the browser. *)
Theorem generate_blocked_when_exhausted w s :
  JS.le (remaining s) (JS.Num 0) = true ->
  runGenerate (w, s)
    = ((w, reported s (match img s with
                       | Some _ => "Batas 30 operasi/hari tercapai."
                       | None => "Harap unggah foto produk dulu."
                       end)),
       JS.Ok tt) /\
  untouched (w, s) (fst (runGenerate (w, s))) /\
  counter (fst (runGenerate (w, s))) = counter (w, s).
Proof.
  intros Hquota.
  assert (Hrun : runGenerate (w, s)
                 = ((w, reported s (match img s with
                                    | Some _ => "Batas 30 operasi/hari tercapai."
                                    | None => "Harap unggah foto produk dulu."
                                    end)), JS.Ok tt)).
  { destruct w, s as [[i |] b er o v c n]; unfold runGenerate, generateTry;
      run_handler; [rewrite Hquota |]; reflexivity. }
  rewrite Hrun. split; [reflexivity |].
  split; [repeat split |]; reflexivity.
Qed.

Lemma generate_blocked_when_exhausted_witness :
  JS.le (remaining sampleExhausted) (JS.Num 0) = true /\
  runGenerate (sampleWorld, sampleExhausted)
    = ((sampleWorld, reported sampleExhausted "Batas 30 operasi/hari tercapai."),
       JS.Ok tt).
Proof.
  split; [reflexivity |].
  apply (generate_blocked_when_exhausted sampleWorld sampleExhausted). reflexivity.
Defined.

(** C1, as stated, fails: with the quota used up and no picture
    uploaded, the error shown is the missing-picture one. *)
Lemma generate_blocked_without_quota_error :
  JS.le (remaining sampleNoImage) (JS.Num 0) = true /\
  error (snd (fst (runGenerate (sampleWorld, sampleNoImage))))
    = Some "Harap unggah foto produk dulu." /\
  ~ blockedByQuota (sampleWorld, sampleNoImage).
Proof.
  split; [reflexivity | split; [reflexivity |]].
  intros [Herr _]. revert Herr. vm_compute. discriminate.
Qed.

(** C8, as the code has it.  [onUpload] makes the file the current
    picture if and only if its MIME type starts with "image/" and the
    file can be read; when the type does not start with "image/" it shows
    the error message and leaves the current picture as it was. *)
Theorem upload_accepts_readable_images w s f :
  (accepts f (w, s) <->
   JS.startsWith "image/" (type f) = true /\ readable f = true) /\
  (JS.startsWith "image/" (type f) = false ->
   onUpload (Some f) (w, s)
     = ((w, mkState (img s) (busy s) (Some "Unggah file gambar (PNG/JPG)")
                    (options s) (variants s) (copies s) (opsUsed s)),
        JS.Ok tt)) /\
  (readable f = false ->
   img (snd (fst (onUpload (Some f) (w, s)))) = img s).
Proof.
  unfold accepts, onUpload, fileToDataUrl. destruct w, s.
  destruct (JS.startsWith "image/" (type f)), (readable f); run_handler;
    (split; [split; [intros (Hr & He & Hi); try discriminate; auto
                    | intros [? ?]; try discriminate; auto]
            | split; [intros ?; try discriminate; reflexivity
                     | intros ?; try discriminate; reflexivity]]).
Qed.

Lemma upload_accepts_readable_images_witness :
  onUpload (Some (mkFile "text/plain" true None)) (sampleWorld, sampleNoImage)
    = ((sampleWorld,
        mkState None false (Some "Unggah file gambar (PNG/JPG)") sampleHigh [] []
                (JS.Num 30)),
       JS.Ok tt).
Proof.
  destruct (upload_accepts_readable_images sampleWorld sampleNoImage
              (mkFile "text/plain" true None)) as (_ & Hreject & _).
  apply Hreject. reflexivity.
Defined.

(** C8, as stated, fails: a file of type image/png that cannot be read
    does not become the current picture. *)
Lemma upload_unreadable_image_not_accepted :
  JS.startsWith "image/" (type sampleUnreadable) = true /\
  img (snd (fst (onUpload (Some sampleUnreadable) (sampleWorld, sampleNoImage)))) = None /\
  ~ accepts sampleUnreadable (sampleWorld, sampleNoImage).
Proof.
  split; [reflexivity | split; [reflexivity |]].
  intros (Hr & _). revert Hr. vm_compute. discriminate.
Qed.

(** ** Upscaling *)

Lemma upscale2x_ok dataUrl image :
  loadImage dataUrl = JS.Ok image ->
  upscale2x dataUrl
    = JS.Ok (CanvasPng (Image.width image * 2) (Image.height image * 2)
               [DrawImage "none" 1 (Image.src image) 0 0
                          (Image.width image * 2) (Image.height image * 2)]).
Proof. intros H. unfold upscale2x. rewrite H. reflexivity. Qed.




(** ** Failures *)

Lemma andThen_app w es es' : andThen (andThen w es) es' = andThen w (es ++ es').
Proof. unfold andThen. cbn. rewrite <- app_assoc. reflexivity. Qed.

Lemma andThen_nil w : andThen w [] = w.
Proof. unfold andThen. rewrite app_nil_r. destruct w; reflexivity. Qed.

(** The fallback downloads every variant once, in order. *)
Lemma forEach_downloads l : forall start w s,
  forEach l start (fun v i => triggerDownload (dataURLtoBlob v) (pngName i)) (w, s)
    = ((andThen w (imap (fun i v => Download (DataBlob v)
                                             (pngName (start + Z.of_nat i))) l), s),
       JS.Ok tt).
Proof.
  induction l as [| v l IH]; intros start w s.
  - cbn [forEach imap]. rewrite andThen_nil. reflexivity.
  - cbn [forEach]. unfold mbind at 1. unfold triggerDownload at 1, emit at 1.
    rewrite IH. fold (andThen w [Download (dataURLtoBlob v) (pngName start)]).
    rewrite andThen_app. cbn [imap app]. unfold dataURLtoBlob.
    replace (start + Z.of_nat 0) with start by lia.
    do 4 f_equal. apply imap_ext. intros i x _. cbn.
    do 2 f_equal. lia.
Qed.

(** [generateVariants] either returns, or fails to decode the source. *)
Lemma generateVariants_total mt src opts :
  (exists out, generateVariants mt src opts = JS.Ok out) \/
  generateVariants mt src opts = JS.Throw (JS.mkError "Gagal memuat gambar.").
Proof.
  destruct (loadImage src) as [base | e |] eqn:Hload.
  - left. destruct (generateVariants_summary mt src opts base Hload) as (out & H & _).
    eauto.
  - right. unfold generateVariants. destruct (ratios (ratio opts)).
    rewrite Hload. cbn [JS.bind]. f_equal.
    destruct src as [m [[w h] |] | w h ops]; cbn in Hload; congruence.
  - destruct src as [m [[w h] |] | w h ops]; discriminate.
Qed.

(** What [incOpsUsed] does: the write is refused and nothing changes, or
    the count read from the store, plus [n], is stored and held. *)
Lemma incOpsUsed_runs w s n :
  incOpsUsed n (w, s)
    = match setItemFailure w with
      | Some e => ((w, s), JS.Throw e)
      | None =>
          ((stored w (keyForToday w) (JS.String (JS.add (getOpsUsed w) n)),
            mkState (img s) (busy s) (error s) (options s) (variants s) (copies s)
                    (JS.add (getOpsUsed w) n)),
           JS.Ok tt)
      end.
Proof. destruct w as [store day clock mt zip [e |] log], s; reflexivity. Qed.

(** [runGenerate], outcome by outcome: the two guards, the drawing, the
    write of the count. *)
Lemma runGenerate_runs w s :
  runGenerate (w, s)
    = match img s with
      | None => ((w, reported s "Harap unggah foto produk dulu."), JS.Ok tt)
      | Some i =>
          if JS.le (remaining s) (JS.Num 0)
          then ((w, reported s "Batas 30 operasi/hari tercapai."), JS.Ok tt)
          else
            match generateVariants (measureText w) i (options s) with
            | JS.Ok out =>
                match setItemFailure w with
                | Some e =>
                    ((w, unsaved s out (messageOr e "Gagal generate.")), JS.Ok tt)
                | None =>
                    ((stored w (keyForToday w)
                             (JS.String (JS.add (getOpsUsed w) (JS.Num 1))),
                      generated s out (JS.add (getOpsUsed w) (JS.Num 1))),
                     JS.Ok tt)
                end
            | JS.Throw e => ((w, reported s (messageOr e "Gagal generate.")), JS.Ok tt)
            | JS.Hang =>
                ((w, mkState (img s) true None (options s) (variants s) (copies s)
                             (opsUsed s)), JS.Hang)
            end
      end.
Proof.
  destruct w as [store day clock mt zip full log], s as [[i |] b er o v c n];
    unfold runGenerate, generateTry; run_handler; [| reflexivity].
  destruct (JS.le _ _); run_handler; [reflexivity |].
  destruct (generateVariants mt i o) as [out | e |]; run_handler;
    [| reflexivity | reflexivity].
  rewrite incOpsUsed_runs. cbn [setItemFailure].
  destruct full as [e |]; reflexivity.
Qed.



Lemma exportAll_runs w s :
  exportAll (w, s)
    = match zipFailure w with
      | Some e => ((andThen w (fallbackEffects s e), idle s), JS.Ok tt)
      | None =>
          ((andThen w [Download
                         (ZipBlob (imap (fun i v => (pngName (Z.of_nat i), v))
                                        (variants s)))
                         ("ProductPro_" +:+ JS.String_of_Z (now w) +:+ ".zip")],
            idle s), JS.Ok tt)
      end.
Proof.
  destruct w as [store day clock mt [e |] full log], s as [i b er o v c n];
    unfold exportAll, exportTry, zipTry, zipCatch; run_handler.
  - rewrite forEach_downloads. run_handler.
    unfold andThen, fallbackEffects, idle. cbn. rewrite <- app_assoc. reflexivity.
  - reflexivity.
Qed.




(** ** Numbers and their text *)

Section Exact.
Import Binary64.

Lemma pow2_mono a b : a <= b -> (pow2 a <= pow2 b)%Q.
Proof.
  intros Hab. replace b with (a + (b - a)) by lia. rewrite pow2_plus.
  rewrite (pow2_Z (b - a)) by lia.
  pose proof (pow2_pos a) as Ha.
  assert (H1 : (1 <= inject_Z (2 ^ (b - a)))%Q).
  { change 1%Q with (inject_Z 1). rewrite <- Zle_Qle.
    pose proof (Z.pow_pos_nonneg 2 (b - a)). lia. }
  set (P := pow2 a) in *. set (K := inject_Z (2 ^ (b - a))) in *.
  assert (H : (P * 1 <= P * K)%Q) by (apply Qmult_le_l; assumption).
  lra.
Qed.

Lemma rne_Z t k : (t == inject_Z k)%Q -> rne t = k.
Proof.
  intros H. unfold rne. rewrite (Qfloor_comp _ _ H), Qfloor_Z.
  destruct (Qcompare_spec (t - k) (1 # 2)) as [He | Hl | Hg];
    [exfalso | reflexivity | exfalso]; set (K := inject_Z k) in *; lra.
Qed.

(** A positive number with a significand below 2^53 and an exponent
    from -1074 is a binary64 value: rounding at the binade [e], or at
    the least binade -1022, returns it. *)
Lemma round_exact a m j :
  0 < m < 2 ^ 53 -> -1074 <= j -> (a == m * pow2 j)%Q ->
  let e := Z.max (binade a) (-1022) in
  (inject_Z (rne (a / pow2 (e - 52))) * pow2 (e - 52) == a)%Q.
Proof.
  intros [Hm Hm53] Hj Ha e.
  assert (HmQ : (0 < m)%Q) by (change 0%Q with (inject_Z 0); rewrite <- Zlt_Qlt; exact Hm).
  pose proof (pow2_pos j) as Hpj.
  assert (Hpos : (0 < a)%Q) by (rewrite Ha; apply Qmult_lt_0_compat; assumption).
  pose proof (binade_le a Hpos) as He.
  assert (Hlt : binade a < 53 + j).
  { destruct (Z_lt_le_dec (binade a) (53 + j)) as [|Hge]; [assumption | exfalso].
    pose proof (pow2_mono _ _ Hge) as Hmono.
    rewrite pow2_plus, (pow2_Z 53) in Hmono by lia.
    assert (Hm' : (m <= 9007199254740991)%Q)
      by (change 9007199254740991%Q with (inject_Z 9007199254740991);
          rewrite <- Zle_Qle; lia).
    change (inject_Z (2 ^ 53)) with 9007199254740992%Q in Hmono.
    assert (H1 : (m * pow2 j <= 9007199254740991 * pow2 j)%Q)
      by (apply Qmult_le_compat_r; [exact Hm' | lra]).
    set (P := pow2 j) in *. set (E := pow2 (binade a)) in *. lra. }
  assert (Hd : 0 <= j - (e - 52)) by (unfold e; lia).
  set (d := j - (e - 52)) in *.
  assert (Hq : (a / pow2 (e - 52) == inject_Z (m * 2 ^ d))%Q).
  { rewrite inject_Z_mult, <- (pow2_Z d) by exact Hd.
    rewrite Ha. replace j with (d + (e - 52)) at 1 by (unfold d; lia).
    rewrite pow2_plus. pose proof (pow2_pos (e - 52)). field.
    apply Qnot_eq_sym, Qlt_not_eq; assumption. }
  rewrite (rne_Z _ _ Hq), <- Hq. pose proof (pow2_pos (e - 52)). field.
  apply Qnot_eq_sym, Qlt_not_eq; assumption.
Qed.

End Exact.

(** *** Integers up to 2^53 are numbers *)

Lemma Qred_Z z : Qred (inject_Z z) = inject_Z z.
Proof.
  unfold Qred, inject_Z.
  pose proof (Z.ggcd_gcd z 1) as Hg.
  pose proof (Z.ggcd_correct_divisors z 1) as Hd.
  destruct (Z.ggcd z 1) as [g [a b]]. cbn [fst snd] in *.
  rewrite Z.gcd_1_r in Hg. subst g. destruct Hd as [Ha Hb].
  replace a with z by lia. replace b with 1 by lia. reflexivity.
Qed.

Lemma ofQ_pos x z : 0 < z <= 2 ^ 53 -> (x == inject_Z z)%Q -> JS.ofQ x = JS.Num z.
Proof.
  intros [Hz Hz53] Hx.
  assert (HzQ : (0 < inject_Z z)%Q)
    by (change 0%Q with (inject_Z 0); rewrite <- Zlt_Qlt; exact Hz).
  assert (Hpos : (0 < x)%Q) by (rewrite Hx; exact HzQ).
  destruct x as [[| n | n] d];
    try (exfalso; revert Hpos; unfold Qlt; cbn; lia).
  unfold JS.ofQ. cbn [Qnum]. change (Z.pos n <? 0) with false. cbv iota.
  change (Qabs (Z.pos n # d)) with (Z.pos n # d).
  set (x := Z.pos n # d) in *.
  assert (Hexact : (inject_Z (Binary64.rne (x / Binary64.pow2 (Z.max (Binary64.binade x) (-1022) - 52)))
                    * Binary64.pow2 (Z.max (Binary64.binade x) (-1022) - 52) == x)%Q).
  { destruct (Z.eq_dec z (2 ^ 53)) as [-> | Hne].
    - apply (round_exact x 1 53); [lia | lia |].
      rewrite Hx, pow2_Z by lia. ring.
    - apply (round_exact x z 0); [lia | lia |].
      rewrite Hx. change (Binary64.pow2 0) with 1%Q. ring. }
  set (v := (inject_Z (Binary64.rne _) * _)%Q) in *.
  assert (Hv : (v == inject_Z z)%Q) by (rewrite Hexact; exact Hx).
  destruct (Qle_bool (Binary64.pow2 1024) v) eqn:Hover.
  - exfalso. apply Qle_bool_iff in Hover. rewrite Hv in Hover.
    pose proof (pow2_mono 54 1024 ltac:(lia)) as Hmono.
    rewrite (pow2_Z 54) in Hmono by lia.
    change (inject_Z (2 ^ 54)) with 18014398509481984%Q in Hmono.
    assert (Hz' : (inject_Z z <= 9007199254740992)%Q)
      by (change 9007199254740992%Q with (inject_Z 9007199254740992);
          rewrite <- Zle_Qle; lia).
    set (P := Binary64.pow2 1024) in *. set (Z' := inject_Z z) in *. lra.
  - rewrite (Qred_complete _ _ Hv), Qred_Z. reflexivity.
Qed.

Lemma ofQ_Z x z : Z.abs z <= 2 ^ 53 -> (x == inject_Z z)%Q -> JS.ofQ x = JS.Num z.
Proof.
  intros Hz Hx. destruct (Z.lt_trichotomy z 0) as [Hneg | [-> | Hpos]].
  - assert (HzQ : (inject_Z z < 0)%Q)
      by (change 0%Q with (inject_Z 0); rewrite <- Zlt_Qlt; exact Hneg).
    destruct x as [[| n | n] d];
      try (exfalso; rewrite <- Hx in HzQ; revert HzQ; unfold Qlt; cbn; lia).
    assert (Hx' : (Z.pos n # d == inject_Z (- z))%Q).
    { rewrite inject_Z_opp, <- Hx. reflexivity. }
    pose proof (ofQ_pos (Z.pos n # d) (- z) ltac:(lia) Hx') as H.
    unfold JS.ofQ in *. cbn [Qnum] in *.
    change (Z.neg n <? 0) with true. change (Z.pos n <? 0) with false in H.
    cbv iota in *.
    change (Qabs (Z.neg n # d)) with (Z.pos n # d).
    change (Qabs (Z.pos n # d)) with (Z.pos n # d) in H.
    set (v := (inject_Z (Binary64.rne _) * _)%Q) in *.
    destruct (Qle_bool (Binary64.pow2 1024) v); [discriminate |].
    rewrite Qred_opp.
    destruct (Qred v) as [rn rd]. cbn [Qden Qnum Qopp] in *.
    destruct (rd =? 1)%positive; [| discriminate].
    injection H as H. f_equal. lia.
  - destruct x as [[| n | n] d]; try (exfalso; revert Hx; unfold Qeq; cbn; lia).
    reflexivity.
  - apply ofQ_pos; [lia | exact Hx].
Qed.

(** [ofZ] is [ofQ] on the integers. *)
Lemma ofZ_nearest z : JS.ofZ z = JS.ofQ (inject_Z z).
Proof.
  unfold JS.ofZ. destruct (Z.leb_spec (Z.abs z) (2 ^ 53)) as [Hz | _]; [| reflexivity].
  symmetry. apply ofQ_Z; [exact Hz | reflexivity].
Qed.

Lemma add_Num x y :
  Z.abs (x + y) <= 2 ^ 53 -> JS.add (JS.Num x) (JS.Num y) = JS.Num (x + y).
Proof.
  intros H. cbn [JS.add]. unfold JS.ofZ. apply Z.leb_le in H. rewrite H. reflexivity.
Qed.

Lemma sub_Num x y :
  Z.abs (x - y) <= 2 ^ 53 -> JS.sub (JS.Num x) (JS.Num y) = JS.Num (x - y).
Proof. intros H. unfold JS.sub. cbn [JS.neg]. apply add_Num. exact H. Qed.

(** ** Decimal text *)

Lemma string_of_uint_digits u : isDigits (NilEmpty.string_of_uint u) = true.
Proof. induction u; cbn; auto. Qed.

Lemma digit_not_space c :
  JS.isDigit c = true ->
  JS.ws1 c = false /\ (forall c2, JS.ws2 c c2 = false) /\
  (forall c2 c3, JS.ws3 c c2 c3 = false).
Proof.
  unfold JS.isDigit, JS.ws1, JS.ws2, JS.ws3. set (n := JS.code c).
  intros H. apply andb_true_iff in H as [H1 H2].
  apply Z.leb_le in H1, H2.
  repeat split; intros;
    repeat match goal with
           | |- context [?a =? ?b] =>
               destruct (Z.eqb_spec a b); [lia |]
           | |- context [?a <=? ?b] =>
               destruct (Z.leb_spec a b); try lia
           end; reflexivity.
Qed.

Lemma trimStart_digit c r :
  JS.isDigit c = true -> JS.trimStart (String c r) = String c r.
Proof.
  intros H. destruct (digit_not_space c H) as (H1 & H2 & H3).
  cbn [JS.trimStart]. rewrite H1.
  destruct r as [| c2 r]; [reflexivity |]. rewrite H2.
  destruct r as [| c3 r]; [reflexivity |]. rewrite H3. reflexivity.
Qed.

Lemma trimEnd_digits s : isDigits s = true -> JS.trimEnd s = s.
Proof.
  induction s as [| c r IH]; [reflexivity |].
  cbn [isDigits]. intros H. apply andb_true_iff in H as [Hc Hr].
  cbn [JS.trimEnd]. unfold JS.blank. rewrite (trimStart_digit c r Hc).
  rewrite (IH Hr). reflexivity.
Qed.

Lemma digitRun_digits s : isDigits s = true -> JS.digitRun s = (s, EmptyString).
Proof.
  induction s as [| c r IH]; [reflexivity |].
  cbn [isDigits]. intros H. apply andb_true_iff in H as [Hc Hr].
  cbn [JS.digitRun]. rewrite Hc, (IH Hr). reflexivity.
Qed.

Lemma append_empty (s : string) : s +:+ EmptyString = s.
Proof.
  induction s as [| c r IH]; [reflexivity |].
  change (String c r +:+ "") with (String c (r +:+ "")). rewrite IH. reflexivity.
Qed.

(** The digits of a positive integer read as that integer. *)
Lemma decimalLiteral_digits p :
  exists q,
    JS.decimalLiteral (NilEmpty.string_of_uint (Pos.to_uint p)) = Some q /\
    (q == inject_Z (Z.pos p))%Q.
Proof.
  pose proof (string_of_uint_digits (Pos.to_uint p)) as Hd.
  pose proof (Unsigned.to_uint_nonnil p) as Hnil.
  unfold JS.decimalLiteral. rewrite (digitRun_digits _ Hd).
  lazy beta iota zeta. rewrite append_empty.
  destruct (NilEmpty.string_of_uint (Pos.to_uint p)) as [| c r] eqn:Hs.
  { exfalso. destruct (Pos.to_uint p); cbn in Hs; congruence. }
  rewrite <- Hs. cbn [JS.exponentPart String.length Z.of_nat].
  eexists. split; [reflexivity |].
  unfold JS.digitsValue. rewrite NilEmpty.usu. unfold Z.of_uint.
  rewrite Unsigned.of_to. cbn [Z.of_N].
  change (JS.pow10 (0 - Z.of_nat 0)) with 1%Q. ring.
Qed.

Lemma first_digit p :
  exists c r, NilEmpty.string_of_uint (Pos.to_uint p) = String c r /\
              JS.isDigit c = true.
Proof.
  pose proof (string_of_uint_digits (Pos.to_uint p)) as Hd.
  pose proof (Unsigned.to_uint_nonnil p) as Hnil.
  destruct (NilEmpty.string_of_uint (Pos.to_uint p)) as [| c r] eqn:Hs.
  { exfalso. destruct (Pos.to_uint p); cbn in Hs; congruence. }
  cbn [isDigits] in Hd. apply andb_true_iff in Hd as [Hc _]. eauto.
Qed.

Lemma trimStart_minus s :
  isDigits s = true -> JS.trimStart (String "-" s) = String "-" s.
Proof.
  intros Hd. destruct s as [| c r]; [reflexivity |].
  cbn [isDigits] in Hd. apply andb_true_iff in Hd as [Hc _].
  cbn [JS.trimStart]. change (JS.ws1 "-") with false. cbv iota.
  change (JS.ws2 "-" c) with ((JS.code "-" =? 194) && (JS.code c =? 160)).
  change (JS.code "-" =? 194) with false. cbn [andb].
  destruct r; [reflexivity |].
  unfold JS.ws3. change (JS.code "-") with 45. cbn [Z.eqb andb orb].
  reflexivity.
Qed.

Lemma blank_minus s : isDigits s = true -> JS.blank (String "-" s) = false.
Proof. intros Hd. unfold JS.blank. rewrite (trimStart_minus s Hd). reflexivity. Qed.

Lemma trimEnd_cons c s :
  JS.blank (String c s) = false -> JS.trimEnd (String c s) = String c (JS.trimEnd s).
Proof. intros H. cbn [JS.trimEnd]. rewrite H. reflexivity. Qed.

(** [Number(String(z))] is [z], for an integer up to 2^53. *)
Lemma Number_decimal z : Z.abs z <= 2 ^ 53 -> JS.Number (JS.decimal z) = JS.Num z.
Proof.
  intros Hz. unfold JS.decimal. destruct z as [| p | p].
  - reflexivity.
  - cbn [Z.to_int NilZero.string_of_int].
    pose proof (Unsigned.to_uint_nonnil p) as Hnil.
    assert (Hs : NilZero.string_of_uint (Pos.to_uint p)
                 = NilEmpty.string_of_uint (Pos.to_uint p))
      by (destruct (Pos.to_uint p); congruence || reflexivity).
    rewrite Hs.
    destruct (first_digit p) as (c & r & Hcr & Hc).
    destruct (decimalLiteral_digits p) as (q & Hq & Hqz).
    pose proof (string_of_uint_digits (Pos.to_uint p)) as Hd.
    unfold JS.Number.
    rewrite Hcr, (trimStart_digit c r Hc), <- Hcr, (trimEnd_digits _ Hd).
    rewrite Hcr at 1. rewrite <- Hcr.
    unfold JS.strDecimalLiteral.
    assert (Hsign : JS.signOf (NilEmpty.string_of_uint (Pos.to_uint p))
                    = (false, NilEmpty.string_of_uint (Pos.to_uint p))).
    { rewrite Hcr. unfold JS.signOf.
      destruct c as [[] [] [] [] [] [] [] []]; try discriminate Hc; reflexivity. }
    rewrite Hsign.
    assert (Hinf : String.eqb (NilEmpty.string_of_uint (Pos.to_uint p)) "Infinity" = false).
    { rewrite Hcr. cbn [String.eqb].
      destruct c as [[] [] [] [] [] [] [] []]; try discriminate Hc; reflexivity. }
    rewrite Hinf, Hq. apply ofQ_Z; assumption.
  - cbn [Z.to_int NilZero.string_of_int].
    pose proof (Unsigned.to_uint_nonnil p) as Hnil.
    assert (Hs : NilZero.string_of_uint (Pos.to_uint p)
                 = NilEmpty.string_of_uint (Pos.to_uint p))
      by (destruct (Pos.to_uint p); congruence || reflexivity).
    rewrite Hs.
    destruct (first_digit p) as (c & r & Hcr & Hc).
    destruct (decimalLiteral_digits p) as (q & Hq & Hqz).
    pose proof (string_of_uint_digits (Pos.to_uint p)) as Hd.
    unfold JS.Number.
    assert (Htrim : JS.trimEnd (JS.trimStart (String "-" (NilEmpty.string_of_uint (Pos.to_uint p))))
                    = String "-" (NilEmpty.string_of_uint (Pos.to_uint p))).
    { rewrite (trimStart_minus _ Hd).
      rewrite (trimEnd_cons "-" _ (blank_minus _ Hd)).
      f_equal. apply trimEnd_digits, Hd. }
    rewrite Htrim. unfold JS.strDecimalLiteral. cbn [JS.signOf].
    assert (Hinf : String.eqb (NilEmpty.string_of_uint (Pos.to_uint p)) "Infinity" = false).
    { rewrite Hcr. cbn [String.eqb].
      destruct c as [[] [] [] [] [] [] [] []]; try discriminate Hc; reflexivity. }
    rewrite Hinf, Hq. apply ofQ_Z; [assumption |].
    rewrite Hqz. change (Z.neg p) with (- Z.pos p). rewrite inject_Z_opp. reflexivity.
Qed.

Lemma String_decimal z : Z.abs z <= 2 ^ 53 -> JS.String_of_Z z = JS.decimal z.
Proof.
  intros Hz. unfold JS.String_of_Z, JS.String.
  apply Z.leb_le in Hz. rewrite Hz. reflexivity.
Qed.
Lemma decimal_nonempty z : JS.decimal z <> EmptyString.
Proof.
  unfold JS.decimal.
  destruct z as [| p | p]; cbn; [discriminate | | discriminate].
  pose proof (Unsigned.to_uint_nonnil p) as Hnil.
  destruct (Pos.to_uint p); cbn; congruence.
Qed.

(** The digits of an integer that is not negative. *)
Lemma decimal_digits z : 0 <= z -> isDigits (JS.decimal z) = true.
Proof.
  intros Hz. unfold JS.decimal. destruct z as [| p | p]; [reflexivity | | lia].
  cbn [Z.to_int NilZero.string_of_int].
  pose proof (Unsigned.to_uint_nonnil p) as Hnil.
  replace (NilZero.string_of_uint (Pos.to_uint p))
    with (NilEmpty.string_of_uint (Pos.to_uint p))
    by (destruct (Pos.to_uint p); congruence || reflexivity).
  apply string_of_uint_digits.
Qed.

(** [Number(String(z))] is [z], for an integer up to 2^53. *)
Lemma Number_String_of_Z z :
  Z.abs z <= 2 ^ 53 -> JS.Number (JS.String_of_Z z) = JS.Num z.
Proof. intros Hz. rewrite (String_decimal z Hz). apply Number_decimal, Hz. Qed.

Lemma String_of_Z_inj z z' :
  Z.abs z <= 2 ^ 53 -> Z.abs z' <= 2 ^ 53 ->
  JS.String_of_Z z = JS.String_of_Z z' -> z = z'.
Proof.
  intros Hz Hz' H. apply (f_equal JS.Number) in H.
  rewrite !Number_String_of_Z in H by assumption. congruence.
Qed.

(** A property checked on every integer of a range holds on the range. *)
Lemma Zrange_forall (f : Z -> bool) (lo hi : Z) :
  forallb f (map (fun i => lo + Z.of_nat i) (seq 0 (Z.to_nat (hi - lo + 1)))) = true ->
  forall z, lo <= z <= hi -> f z = true.
Proof.
  intros H z Hz. rewrite List.forallb_forall in H. apply H.
  apply List.in_map_iff. exists (Z.to_nat (z - lo)). split; [lia |].
  apply List.in_seq. lia.
Qed.

(** Years 1000 to 9999 print as four digits. *)
Lemma year_four_digits y :
  1000 <= y <= 9999 ->
  String.length (JS.String_of_Z y) = 4%nat /\ isDigits (JS.String_of_Z y) = true.
Proof.
  intros Hy.
  assert (H : (Nat.eqb (String.length (JS.String_of_Z y)) 4
               && isDigits (JS.String_of_Z y)) = true).
  { apply (Zrange_forall
             (fun y => Nat.eqb (String.length (JS.String_of_Z y)) 4
                       && isDigits (JS.String_of_Z y)) 1000 9999);
      [vm_compute; reflexivity | lia]. }
  apply andb_true_iff in H as [Hl Hd]. apply Nat.eqb_eq in Hl. auto.
Qed.

(** Numbers 0 to 99 pad to two digits that read back as the number. *)
Lemma pad2_two_digits k :
  0 <= k <= 99 ->
  String.length (JS.padStart0 2 (JS.String_of_Z k)) = 2%nat /\
  isDigits (JS.padStart0 2 (JS.String_of_Z k)) = true /\
  JS.Number (JS.padStart0 2 (JS.String_of_Z k)) = JS.Num k.
Proof.
  intros Hk.
  assert (H : (Nat.eqb (String.length (JS.padStart0 2 (JS.String_of_Z k))) 2
               && isDigits (JS.padStart0 2 (JS.String_of_Z k))
               && reads (JS.padStart0 2 (JS.String_of_Z k)) k) = true).
  { apply (Zrange_forall
             (fun k => Nat.eqb (String.length (JS.padStart0 2 (JS.String_of_Z k))) 2
                       && isDigits (JS.padStart0 2 (JS.String_of_Z k))
                       && reads (JS.padStart0 2 (JS.String_of_Z k)) k) 0 99);
      [vm_compute; reflexivity | lia]. }
  apply andb_true_iff in H as [H Hr]. apply andb_true_iff in H as [Hl Hd].
  apply Nat.eqb_eq in Hl. split; [exact Hl | split; [exact Hd |]].
  unfold reads in Hr. destruct (JS.Number _); try discriminate.
  apply Z.eqb_eq in Hr. congruence.
Qed.

Lemma length_append (a b : string) :
  String.length (a +:+ b) = (String.length a + String.length b)%nat.
Proof.
  induction a as [| c a IH]; simpl; [reflexivity | rewrite IH; reflexivity].
Qed.

(** Two texts that end in tails of the same length agree part by part. *)
Lemma append_inj_tail (a c b d : string) :
  String.length b = String.length d ->
  a +:+ b = c +:+ d -> a = c /\ b = d.
Proof.
  revert c. induction a as [| x a IH]; intros [| y c] Hlen Heq.
  - auto.
  - apply (f_equal String.length) in Heq.
    rewrite !length_append in Heq. simpl in Heq. lia.
  - apply (f_equal String.length) in Heq.
    rewrite !length_append in Heq. simpl in Heq. lia.
  - simpl in Heq. injection Heq as -> Heq.
    destruct (IH c Hlen Heq) as [-> ->]. auto.
Qed.

(** Different days have different keys. *)
Lemma keyFor_inj d d' :
  validDate d -> validDate d' -> keyFor d = keyFor d' -> d = d'.
Proof.
  destruct d as [y m a], d' as [y' m' a'].
  unfold validDate, keyFor. cbn [getFullYear getMonth getDate].
  intros (Hy & Hm & Ha) (Hy' & Hm' & Ha') Hkey.
  destruct (pad2_two_digits (m + 1)) as (Lm & _ & Nm); [lia |].
  destruct (pad2_two_digits (m' + 1)) as (Lm' & _ & Nm'); [lia |].
  destruct (pad2_two_digits a) as (La & _ & Na); [lia |].
  destruct (pad2_two_digits a') as (La' & _ & Na'); [lia |].
  apply String.app_inj in Hkey.
  apply append_inj_tail in Hkey as [Hy0 Hrest];
    [| rewrite !length_append; simpl; lia].
  apply String.app_inj in Hrest.
  apply append_inj_tail in Hrest as [HM HD];
    [| rewrite !length_append; simpl; lia].
  apply String.app_inj in HD.
  apply String_of_Z_inj in Hy0; [| lia | lia].
  rewrite HM in Nm. rewrite HD in Na.
  assert (m + 1 = m' + 1) by congruence.
  f_equal; [exact Hy0 | lia | congruence].
Qed.

(** ** The stored counter *)

Lemma getOpsUsed_absent w :
  localStorage w !! keyForToday w = None -> getOpsUsed w = JS.Num 0.
Proof. intros H. unfold getOpsUsed, getItemOr0. rewrite H. reflexivity. Qed.

Lemma getOpsUsed_stored w z :
  Z.abs z <= 2 ^ 53 ->
  getOpsUsed (stored w (keyForToday w) (JS.String_of_Z z)) = JS.Num z.
Proof.
  intros Hz. unfold getOpsUsed, getItemOr0, keyForToday, stored.
  cbn [localStorage today]. rewrite lookup_insert_eq.
  rewrite (String_decimal z Hz).
  pose proof (decimal_nonempty z) as Hne.
  destruct (JS.decimal z) eqn:Hs; [congruence |].
  rewrite <- Hs. apply Number_decimal, Hz.
Qed.

(** C9, as the code has it.  For a day whose year has four digits, the
    key is "pp_ops_" followed by the year, the month and the day of the
    month as 4, 2 and 2 decimal digits with "-" between them; an absent
    key reads as 0; and when the count read is an integer [n] from -2^53
    to 2^53 - 1 and the store takes the write, what [incOpsUsed] stores
    is the decimal text of [n + 1], which reads back as [n + 1]. *)
Theorem counter_key_and_value w s n :
  validDate (today w) ->
  1000 <= getFullYear (today w) <= 9999 ->
  getOpsUsed w = JS.Num n ->
  - 2 ^ 53 <= n < 2 ^ 53 ->
  setItemFailure w = None ->
  keyShape (today w) (keyForToday w) /\
  (forall w0, localStorage w0 !! keyForToday w0 = None -> getOpsUsed w0 = JS.Num 0) /\
  (let w' := fst (fst (incOpsUsed (JS.Num 1) (w, s))) in
   localStorage w' !! keyForToday w = Some (JS.decimal (n + 1)) /\
   (0 <= n + 1 -> isDigits (JS.decimal (n + 1)) = true) /\
   getOpsUsed w' = JS.Num (n + 1)).
Proof.
  intros (_ & Hm & Hd) Hy Hn Hrange Hfull. split; [| split].
  - destruct (year_four_digits _ Hy) as [LY DY].
    destruct (pad2_two_digits (getMonth (today w) + 1)) as (LM & DM & NM); [lia |].
    destruct (pad2_two_digits (getDate (today w))) as (LD & DD & ND); [lia |].
    eexists _, _, _. split; [reflexivity |].
    split; [auto |]. split; [auto |].
    split; [apply Number_String_of_Z; lia | auto].
  - apply getOpsUsed_absent.
  - assert (Hn1 : Z.abs (n + 1) <= 2 ^ 53) by lia.
    rewrite incOpsUsed_runs, Hfull. cbn [fst]. rewrite Hn, (add_Num n 1 Hn1).
    change (JS.String (JS.Num (n + 1))) with (JS.String_of_Z (n + 1)).
    split; [| split; [apply decimal_digits | apply getOpsUsed_stored, Hn1]].
    rewrite (String_decimal _ Hn1).
    unfold stored. cbn [localStorage]. apply lookup_insert_eq.
Qed.

Lemma counter_key_and_value_witness :
  keyForToday sampleWorld = "pp_ops_2024-01-15" /\
  keyShape (today sampleWorld) (keyForToday sampleWorld) /\
  getOpsUsed (fst (fst (incOpsUsed (JS.Num 1) (sampleWorld, sampleFresh)))) = JS.Num 1.
Proof.
  split; [reflexivity |].
  destruct (counter_key_and_value sampleWorld sampleFresh 0)
    as (Hshape & _ & _ & _ & Hread).
  - unfold validDate; cbn; lia.
  - cbn; lia.
  - reflexivity.
  - lia.
  - reflexivity.
  - split; [exact Hshape | exact Hread].
Defined.

(** C9, as stated, fails: the year is written without padding, so a day
    of the year 10000 has a key with five year digits. *)
Lemma key_year_not_four_digits :
  keyFor (mkDate 10000 0 1) = "pp_ops_10000-01-01" /\
  ~ keyShape (mkDate 10000 0 1) (keyFor (mkDate 10000 0 1)).
Proof.
  split; [reflexivity |].
  intros (Y & M & D & Hkey & (LY & LM & LD) & _).
  apply (f_equal String.length) in Hkey.
  rewrite !length_append in Hkey. rewrite LY, LM, LD in Hkey.
  revert Hkey. vm_compute. discriminate.
Qed.

(** From 2^53 on the count no longer moves by one, and from 10^21 on its
    text is no longer a row of digits; a stored text that is a number
    without being an integer is read as that number. *)
Lemma count_beyond_integers :
  JS.add (JS.Num (2 ^ 53)) (JS.Num 1) = JS.Num (2 ^ 53) /\
  JS.String (JS.Num (10 ^ 21)) = "1e+21" /\
  JS.Number "29.5" = JS.Frac (59 # 2) /\
  JS.String (JS.add (JS.Number "29.5") (JS.Num 1)) = "30.5" /\
  map JS.Number [" 5"; "+5"; "1e1"; "0x1A"; "abc"]
    = [JS.Num 5; JS.Num 5; JS.Num 10; JS.Num 26; JS.NaN].
Proof. vm_compute. repeat split; reflexivity. Qed.

(** ** The daily cap *)

(** [runGenerate] either reports an error and leaves the store, the day
    and the count alone, or goes through: it was allowed by the guard,
    holds the new variants and copies, and has stored the counter plus
    one. *)
Lemma runGenerate_cases w s :
  (sameCounter (w, s) (fst (runGenerate (w, s))) /\
   error (snd (fst (runGenerate (w, s)))) <> None) \/
  (exists i out,
     img s = Some i /\
     JS.le (remaining s) (JS.Num 0) = false /\
     generateVariants (measureText w) i (options s) = JS.Ok out /\
     setItemFailure w = None /\
     runGenerate (w, s)
       = ((stored w (keyForToday w)
                  (JS.String (JS.add (getOpsUsed w) (JS.Num 1))),
           generated s out (JS.add (getOpsUsed w) (JS.Num 1))),
          JS.Ok tt)).
Proof.
  rewrite runGenerate_runs.
  destruct (img s) as [i |] eqn:Hi; [| left; split; [repeat split | discriminate]].
  destruct (JS.le (remaining s) (JS.Num 0)) eqn:Hq;
    [left; split; [repeat split | discriminate] |].
  destruct (generateVariants_total (measureText w) i (options s))
    as [[out Hgen] | Hgen]; rewrite Hgen;
    [| left; split; [repeat split | discriminate]].
  destruct (setItemFailure w) as [e |] eqn:Hfull;
    [left; split; [repeat split | discriminate] |].
  right. exists i, out. auto.
Qed.

(** The handlers other than generation leave the store, the day and the
    count alone. *)
Lemma perform_sameCounter a sys :
  a <> Generate -> sameCounter sys (fst (perform a sys)).
Proof.
  intros Ha. destruct sys as [w s].
  destruct a; try congruence; cbn [perform].
  - unfold onUpload, fileToDataUrl. destruct w, s.
    destruct (JS.startsWith "image/" (type file)), (readable file);
      run_handler; repeat split.
  - destruct w, s. repeat split.
  - destruct w, s. repeat split.
  - destruct w, s as [i b er o v c n]. unfold doUpscale, upscaleTry.
    run_handler. destruct (all upscale2x v); run_handler; repeat split.
  - rewrite exportAll_runs. destruct (zipFailure w); repeat split.
  - destruct w, s. repeat split.
Qed.

Lemma counterInv_frame sys sys' :
  counterInv sys -> sameCounter sys sys' -> counterInv sys'.
Proof.
  intros (Hv & (n & k & Hn & Hk & Hnk) & Hlater) (Hstore & Hday & Hops).
  unfold counterInv, counter, getOpsUsed, keyForToday in *.
  rewrite Hstore, Hday, Hops. eauto 10.
Qed.

Lemma dayIndex_inj d d' :
  validDate d -> validDate d' -> dayIndex d = dayIndex d' -> d = d'.
Proof.
  destruct d as [y m a], d' as [y' m' a']. unfold validDate, dayIndex.
  cbn [getFullYear getMonth getDate]. intros (_ & Hm & Ha) (_ & Hm' & Ha') H.
  assert (y = y') by lia. subst y'.
  assert (m = m') by lia. subst m'.
  f_equal. lia.
Qed.

Lemma counterInv_mount w : freshStore w -> counterInv (w, mount w).
Proof.
  intros [Hv Hfresh]. unfold counterInv, counter. cbn [fst snd mount opsUsed].
  assert (H0 : getOpsUsed w = JS.Num 0)
    by (apply getOpsUsed_absent, Hfresh; [exact Hv | lia]).
  split; [exact Hv |]. split.
  - exists 0, 0. rewrite H0. repeat split; lia.
  - intros d Hd Hlt. apply Hfresh; [exact Hd | lia].
Qed.

Lemma counterInv_reload w s : counterInv (w, s) -> counterInv (w, mount w).
Proof.
  intros (Hv & (n & k & Hn & Hk & Hnk) & Hlater).
  unfold counterInv, counter in *. cbn [fst snd mount opsUsed] in *.
  split; [exact Hv |]. split; [| exact Hlater].
  exists n, n. rewrite Hn. repeat split; lia.
Qed.

Lemma counterInv_elapse w w' s :
  counterInv (w, s) -> elapses w w' -> counterInv (w', s).
Proof.
  intros (Hv & (n & k & Hn & Hk & Hnk) & Hlater) (Hstore & _ & Hv' & Hle).
  unfold counterInv, counter in *. cbn [fst snd] in *.
  split; [exact Hv' |]. split.
  - destruct (Z.eq_dec (dayIndex (today w)) (dayIndex (today w'))) as [Heq | Hne].
    + apply dayIndex_inj in Heq; [| assumption | assumption].
      exists n, k. unfold getOpsUsed, keyForToday in *.
      rewrite Hstore, <- Heq. auto.
    + exists 0, k. split; [| split; [exact Hk | lia]].
      apply getOpsUsed_absent. unfold keyForToday. rewrite Hstore.
      apply Hlater; [exact Hv' | lia].
  - intros d Hd Hlt. rewrite Hstore. apply Hlater; [exact Hd | lia].
Qed.

Lemma le_remaining_false k :
  0 <= k <= 30 ->
  JS.le (JS.sub (JS.Num 30) (JS.Num k)) (JS.Num 0) = false -> k < 30.
Proof.
  intros Hk. rewrite sub_Num by lia. cbn [JS.le].
  intros H. apply Z.leb_gt in H. lia.
Qed.

Lemma counterInv_generate sys : counterInv sys -> counterInv (fst (runGenerate sys)).
Proof.
  destruct sys as [w s]. intros Hinv.
  destruct (runGenerate_cases w s) as [[Hsame _] | (i & out & _ & Hq & _ & _ & ->)].
  - apply (counterInv_frame _ _ Hinv Hsame).
  - destruct Hinv as (Hv & (n & k & Hn & Hk & Hnk) & Hlater).
    unfold counterInv, counter in *. cbn [fst snd opsUsed generated] in *.
    unfold remaining in Hq. rewrite Hk in Hq. apply le_remaining_false in Hq; [| lia].
    rewrite Hn, add_Num by lia.
    change (JS.String (JS.Num (n + 1))) with (JS.String_of_Z (n + 1)).
    split; [exact Hv |]. split.
    + exists (n + 1), (n + 1). rewrite getOpsUsed_stored by lia. repeat split; lia.
    + intros d Hd Hlt. unfold stored. cbn [localStorage today] in *.
      rewrite lookup_insert_ne; [apply Hlater; assumption |].
      unfold keyForToday. intros Hkey.
      apply keyFor_inj in Hkey; [| assumption | assumption].
      subst d. unfold stored in Hlt. cbn [fst today] in Hlt. lia.
Qed.

Lemma reachable_counterInv sys : reachable sys -> counterInv sys.
Proof.
  induction 1 as [w Hfresh | a sys _ IH | w s _ IH | w w' s _ IH Hel].
  - apply counterInv_mount, Hfresh.
  - destruct a;
      try (apply (counterInv_frame _ _ IH), perform_sameCounter; discriminate).
    apply counterInv_generate, IH.
  - apply (counterInv_reload _ _ IH).
  - apply (counterInv_elapse _ _ _ IH Hel).
Qed.

(** C7, as the code has it.  With one page open on the store and a
    clock whose day does not go back, in every state the page can reach
    from a first visit, by its handlers, by reloading and by the passing
    of time, the stored counter of the day and the count the page holds
    are integers from 0 to 30.  [runGenerate] adds exactly 1 to the
    stored counter when it goes through, which it only does below 30,
    and leaves it alone when it reports an error. *)
Theorem counter_within_daily_cap sys :
  reachable sys ->
  (exists n, counter sys = JS.Num n /\ 0 <= n <= 30) /\
  (exists k, opsUsed (snd sys) = JS.Num k /\ 0 <= k <= 30) /\
  (let sys' := fst (runGenerate sys) in
   (error (snd sys') = None /\
    exists n, counter sys = JS.Num n /\ n < 30 /\ counter sys' = JS.Num (n + 1)) \/
   (error (snd sys') <> None /\ counter sys' = counter sys)).
Proof.
  intros Hreach.
  destruct (reachable_counterInv sys Hreach) as (_ & (n & k & Hn & Hk & Hnk) & _).
  split; [exists n; split; [exact Hn | lia] |].
  split; [exists k; split; [exact Hk | lia] |].
  destruct sys as [w s]. cbn [fst snd] in *. cbv zeta.
  destruct (runGenerate_cases w s)
    as [[(Hstore & Hday & _) Herr] | (i & out & _ & Hq & _ & _ & ->)].
  - right. split; [exact Herr |].
    unfold counter, getOpsUsed, keyForToday. rewrite Hstore, Hday. reflexivity.
  - left. split; [reflexivity |]. exists n.
    unfold remaining in Hq. rewrite Hk in Hq. apply le_remaining_false in Hq; [| lia].
    split; [exact Hn | split; [lia |]].
    unfold counter in *. cbn [fst] in *. rewrite Hn, add_Num by lia.
    apply (getOpsUsed_stored w (n + 1)). lia.
Qed.

Lemma counter_within_daily_cap_witness :
  reachable sampleAfterGenerate /\
  counter sampleAfterGenerate = JS.Num 1 /\
  exists n, counter sampleAfterGenerate = JS.Num n /\ 0 <= n <= 30.
Proof.
  assert (Hreach : reachable sampleAfterGenerate).
  { unfold sampleAfterGenerate. do 2 apply reach_action. apply reach_mount.
    split; [unfold validDate; cbn; lia |].
    intros d _ _. apply lookup_empty. }
  split; [exact Hreach |]. split; [vm_compute; reflexivity |].
  apply (counter_within_daily_cap sampleAfterGenerate Hreach).
Defined.

Lemma reachableTabs_steps l : forall t, reachableTabs t -> reachableTabs (steps l t).
Proof.
  induction l as [| st l IH]; intros t Ht; [exact Ht |].
  apply IH, tabs_step, Ht.
Qed.

(** C7, as stated, fails: two pages are opened on a first visit, each
    holding the count 0; the first generates thirty times, and the
    second, whose guard reads its own count, then generates once more:
    the stored counter of the day is 31, and no error is shown. *)
Lemma second_page_passes_cap :
  let t := steps twoPages (sampleWorld, []) in
  reachableTabs t /\
  getOpsUsed (fst t) = JS.Num 31 /\
  map error (snd t) = [None; None] /\
  map opsUsed (snd t) = [JS.Num 30; JS.Num 31].
Proof.
  split.
  - apply reachableTabs_steps, tabs_first.
    split; [unfold validDate; cbn; lia |].
    intros d _ _. apply lookup_empty.
  - vm_compute. repeat split; reflexivity.
Qed.

(** * Further properties *)

(** ** Filling the box, and where the picture goes *)

Section Bounds.
Import Binary64.




Lemma round_above (x : Q) (z : Z) : (z - (1 # 2) <= x)%Q -> z <= JS.round x.
Proof.
  intros Hx. unfold JS.round.
  rewrite <- (Qfloor_Z z). apply Qfloor_resp_le. lra.
Qed.


End Bounds.

Section Exactness.
Import Binary64.

(** A positive number with a significand below 2^53 is a binary64 value:
    rounding returns it. *)
Lemma fl_exact x m j : 0 < m < 2 ^ 53 -> (x == m * pow2 j)%Q -> (fl x == x)%Q.
Proof.
  intros [Hm Hm53] Hx.
  assert (HmQ : (0 < m)%Q) by (change 0%Q with (inject_Z 0); rewrite <- Zlt_Qlt; exact Hm).
  pose proof (pow2_pos j) as Hj.
  assert (Hpos : (0 < x)%Q).
  { rewrite Hx. apply Qmult_lt_0_compat; assumption. }
  assert (Hfl : fl x = nearest x).
  { destruct x as [[| n | n] d]; unfold fl; cbn [Qnum]; try reflexivity;
      exfalso; revert Hpos; unfold Qlt; cbn; lia. }
  rewrite Hfl. unfold nearest.
  pose proof (binade_le x Hpos) as He. set (e := binade x) in *.
  assert (Hlt : e < 53 + j).
  { destruct (Z_lt_le_dec e (53 + j)) as [|Hge]; [assumption | exfalso].
    pose proof (pow2_mono _ _ Hge) as Hmono.
    rewrite pow2_plus, (pow2_Z 53) in Hmono by lia.
    assert (Hm' : (m <= 9007199254740991)%Q)
      by (change 9007199254740991%Q with (inject_Z 9007199254740991);
          rewrite <- Zle_Qle; lia).
    change (inject_Z (2 ^ 53)) with 9007199254740992%Q in Hmono.
    assert (H1 : (m * pow2 j <= 9007199254740991 * pow2 j)%Q)
      by (apply Qmult_le_compat_r; [exact Hm' | lra]).
    set (P := pow2 j) in *. set (E := pow2 e) in *. lra. }
  set (d := j - (e - 52)).
  assert (Hq : (x / pow2 (e - 52) == inject_Z (m * 2 ^ d))%Q).
  { rewrite inject_Z_mult, <- (pow2_Z d) by (unfold d; lia).
    rewrite Hx. replace j with (d + (e - 52)) at 1 by (unfold d; lia).
    rewrite pow2_plus. pose proof (pow2_pos (e - 52)). field.
    apply Qnot_eq_sym, Qlt_not_eq; assumption. }
  rewrite (rne_Z _ _ Hq), <- Hq. pose proof (pow2_pos (e - 52)). field.
  apply Qnot_eq_sym, Qlt_not_eq; assumption.
Qed.

Lemma fl_exact_Z x z : 0 < z < 2 ^ 53 -> (x == inject_Z z)%Q -> (fl x == z)%Q.
Proof.
  intros Hz Hx. rewrite <- Hx. apply (fl_exact x z 0 Hz).
  rewrite Hx. change (pow2 0) with 1%Q. ring.
Qed.

Lemma fl_exact_half x z : 0 < z < 2 ^ 53 -> (x == inject_Z z / 2)%Q -> (fl x == z / 2)%Q.
Proof.
  intros Hz Hx. rewrite <- Hx. apply (fl_exact x z (-1) Hz).
  rewrite Hx. change (pow2 (-1)) with (1 # 2)%Q. field.
Qed.

End Exactness.

Lemma round_nonneg x : (0 <= x)%Q -> 0 <= JS.round x.
Proof. intros Hx. apply round_above. change (inject_Z 0) with 0%Q. lra. Qed.

Lemma contain_nonneg iw ih maxW maxH :
  0 < iw -> 0 < ih -> 0 < maxW -> 0 < maxH ->
  0 <= fst (contain iw ih maxW maxH) /\ 0 <= snd (contain iw ih maxW maxH).
Proof.
  intros Hiw Hih HW HH.
  assert (Q0 : forall z, 0 < z -> (0 < inject_Z z)%Q)
    by (intros z Hz; change 0%Q with (inject_Z 0); rewrite <- Zlt_Qlt; exact Hz).
  pose proof (Q0 _ Hiw). pose proof (Q0 _ Hih). pose proof (Q0 _ HW). pose proof (Q0 _ HH).
  assert (Hr0 : (0 <= Qmin (maxW / iw)%js (maxH / ih)%js)%Q).
  { apply Q.min_glb; apply fl_nonneg; apply Qle_shift_div_l; try assumption;
      rewrite Qmult_0_l; lra. }
  unfold contain. cbn [fst snd].
  split; apply round_nonneg, fl_nonneg, Qmult_le_0_compat; lra.
Qed.



Lemma drawVariant_layers mt base opts presets (w h : Z) q i p :
  let cw := JS.round (w * q)%js in
  let ch := JS.round (h * q)%js in
  let pad := padOf cw ch in
  let fit := contain (Image.width base) (Image.height base)
                     (cw - pad * 2) (ch - pad * 2) in
  presetAt presets i = JS.Ok p ->
  0 <= pad ->
  0 < JS.round ((cw - pad * 2)%Z / 6)%js ->
  exists rest,
    drawVariant mt base opts presets w h q i
    = JS.Ok (CanvasPng cw ch
               (FillRect (background (mode opts)) 1 0 0 cw ch
                :: DrawImage (Preset.filter p) 1 (Image.src base)
                             (fst (placed cw ch fit)) (snd (placed cw ch fit))
                             (fst fit) (snd fit)
                :: rest)).
Proof.
  intros cw ch pad fit Hp Hpad Hstep. unfold drawVariant.
  fold cw ch. fold (padOf cw ch). fold pad. fold fit.
  rewrite Hp. cbn [JS.bind].
  destruct (mode opts).
  - cbn [JS.bind]. destruct (watermark opts); eexists; run_ctx; cbn [app];
      reflexivity.
  - cbn [JS.bind].
    match goal with
    | |- context [gridLoop ?f ?gx ?stop ?step ?pd ?c ?ctx] =>
        destruct (gridLoop_ok f gx stop step pd c ctx) as (rects & -> & Hall);
          [exact Hstep | lia |]
    end.
    cbn [JS.bind]. destruct (watermark opts); eexists; run_ctx; cbn [app];
      reflexivity.
Qed.

Lemma inject_Z_sub a b : (inject_Z (a - b) == inject_Z a - inject_Z b)%Q.
Proof.
  unfold Qminus. rewrite <- inject_Z_opp, <- inject_Z_plus. reflexivity.
Qed.

(** On the twelve table entries the padding is positive and the box
    left for the picture is a positive one, far below 2^51. *)
Lemma table_box r q :
  let cw := JS.round (fst (ratios r) * qualityScale q)%js in
  let ch := JS.round (snd (ratios r) * qualityScale q)%js in
  (0 < padOf cw ch /\ 0 < cw - padOf cw ch * 2 /\ 0 < ch - padOf cw ch * 2) /\
  (cw < 2 ^ 51 /\ ch < 2 ^ 51).
Proof.
  destruct r, q; repeat split; apply Z.ltb_lt; vm_compute; reflexivity.
Qed.

(** A loop whose every turn returns a picture with property [P] returns
    as many pictures as it has turns, all with [P]. *)
Lemma variantLoop_Forall (P : DataUrl -> Prop) turn n : forall i,
  (forall k, exists v, turn k = JS.Ok v /\ P v) ->
  exists out, variantLoop n i turn = JS.Ok out /\ length out = n /\ Forall P out.
Proof.
  induction n as [| n IH]; intros i Hturn; cbn [variantLoop].
  - exists []. split; [reflexivity | split; [reflexivity | constructor]].
  - destruct (Hturn i) as (v & -> & Hv).
    destruct (IH (S i) Hturn) as (out & -> & Hlen & Hall).
    cbn [JS.bind]. exists (v :: out).
    split; [reflexivity | split; [cbn; lia | constructor; assumption]].
Qed.

Lemma presetAt_ok opts i : exists p, presetAt (buildPresetFilters opts) i = JS.Ok p.
Proof.
  unfold presetAt.
  destruct (presets_four opts) as (p0 & p1 & p2 & p3 & ->).
  destruct (lookup_lt_is_Some_2 [p0; p1; p2; p3] (i mod 4)) as [p Hp].
  - cbn [length]. apply Nat.mod_upper_bound. discriminate.
  - exists p. cbn [length]. rewrite Hp. reflexivity.
Qed.

Lemma loadImage_src src base : loadImage src = JS.Ok base -> Image.src base = src.
Proof.
  destruct src as [m [[w h] |] | w h ops]; cbn; intros H; try discriminate;
    injection H as <-; reflexivity.
Qed.

(** What holds of every turn of the loop holds of every variant. *)
Lemma generateVariants_each (P : DataUrl -> Prop) mt src opts base :
  loadImage src = JS.Ok base ->
  (forall i p,
     presetAt (buildPresetFilters opts) i = JS.Ok p ->
     exists v,
       drawVariant mt base opts (buildPresetFilters opts)
                   (fst (ratios (ratio opts))) (snd (ratios (ratio opts)))
                   (qualityScale (quality opts)) i = JS.Ok v /\ P v) ->
  exists out,
    generateVariants mt src opts = JS.Ok out /\ length out = 4%nat /\ Forall P out.
Proof.
  intros Hload Hturn. unfold generateVariants.
  destruct (ratios (ratio opts)) as [w h]. cbn [fst snd] in Hturn.
  rewrite Hload. cbn [JS.bind].
  apply variantLoop_Forall. intros k.
  destruct (presetAt_ok opts k) as [p Hp]. exact (Hturn k p Hp).
Qed.

(** X2. Every variant that [generateVariants] returns starts with the
    background over the whole canvas, in the colour of the mode, and
    then the uploaded picture, drawn once at the size [contain] gives
    it, centred on the canvas and inside the padding on all four
    sides. *)
Theorem picture_centred_in_padding mt src opts base :
  loadImage src = JS.Ok base ->
  0 < Image.width base -> 0 < Image.height base ->
  let '(cw, ch) := canvasSize opts in
  let pad := padOf cw ch in
  let fit := contain (Image.width base) (Image.height base)
                     (cw - pad * 2) (ch - pad * 2) in
  exists out,
    generateVariants mt src opts = JS.Ok out /\ length out = 4%nat /\
    Forall (fun v =>
              exists f x y,
                layers v
                = Some (FillRect (background (mode opts)) 1 0 0 cw ch,
                        DrawImage f 1 src x y (fst fit) (snd fit)) /\
                (x == (cw - fst fit) / 2 /\ y == (ch - snd fit) / 2)%Q /\
                (pad <= x /\ x + fst fit <= cw - pad)%Q /\
                (pad <= y /\ y + snd fit <= ch - pad)%Q)
           out.
Proof.
  intros Hload Hw Hh. unfold canvasSize.
  destruct (table_grid (ratio opts) (quality opts)) as [Hpad Hstep].
  destruct (table_box (ratio opts) (quality opts))
    as [(Hpad1 & Hbw & Hbh) [Hcw Hch]].
  set (cw := JS.round (fst (ratios (ratio opts)) * qualityScale (quality opts))%js) in *.
  set (ch := JS.round (snd (ratios (ratio opts)) * qualityScale (quality opts))%js) in *.
  set (pad := padOf cw ch) in *.
  set (fit := contain (Image.width base) (Image.height base)
                      (cw - pad * 2) (ch - pad * 2)).
  destruct (contain_nonneg (Image.width base) (Image.height base)
              (cw - pad * 2) (ch - pad * 2) Hw Hh Hbw Hbh) as [Hf0 Hs0].
  fold fit in Hf0, Hs0.
  assert (Hfw : fst fit <= cw - pad * 2).
  { apply scaled_le; [exact Hw | lia | | apply Q.le_min_l].
    apply Q.min_glb; apply fl_nonneg; apply Qle_shift_div_l;
      try (change 0%Q with (inject_Z 0); rewrite <- Zlt_Qlt; assumption);
      rewrite Qmult_0_l; change 0%Q with (inject_Z 0); rewrite <- Zle_Qle; lia. }
  assert (Hfh : snd fit <= ch - pad * 2).
  { apply scaled_le; [exact Hh | lia | | apply Q.le_min_r].
    apply Q.min_glb; apply fl_nonneg; apply Qle_shift_div_l;
      try (change 0%Q with (inject_Z 0); rewrite <- Zlt_Qlt; assumption);
      rewrite Qmult_0_l; change 0%Q with (inject_Z 0); rewrite <- Zle_Qle; lia. }
  assert (Hhalf : forall c f : Z, 0 < c - f < 2 ^ 53 ->
                    (((c - f) / 2)%js == (c - f) / 2)%Q).
  { intros c f Hcf. unfold Binary64.div, Binary64.sub.
    assert (E : (Binary64.fl (c - f) == inject_Z (c - f))%Q).
    { apply fl_exact_Z; [exact Hcf |].
      rewrite inject_Z_sub. reflexivity. }
    rewrite (fl_exact_half _ (c - f) Hcf).
    - rewrite inject_Z_sub. reflexivity.
    - rewrite E. reflexivity. }
  destruct (generateVariants_each
              (fun v => exists f x y,
                 layers v
                 = Some (FillRect (background (mode opts)) 1 0 0 cw ch,
                         DrawImage f 1 src x y (fst fit) (snd fit)) /\
                 (x == (cw - fst fit) / 2 /\ y == (ch - snd fit) / 2)%Q /\
                 (pad <= x /\ x + fst fit <= cw - pad)%Q /\
                 (pad <= y /\ y + snd fit <= ch - pad)%Q)
              mt src opts base Hload) as (out & Hgen & Hlen & Hall).
  - intros i p Hp.
    destruct (drawVariant_layers mt base opts (buildPresetFilters opts)
                (fst (ratios (ratio opts))) (snd (ratios (ratio opts)))
                (qualityScale (quality opts)) i p Hp Hpad Hstep) as (rest & ->).
    fold cw ch pad fit. eexists. split; [reflexivity |].
    exists (Preset.filter p), (fst (placed cw ch fit)), (snd (placed cw ch fit)).
    rewrite (loadImage_src _ _ Hload).
    split; [reflexivity |]. unfold placed. cbn [fst snd].
    rewrite (Hhalf cw (fst fit)), (Hhalf ch (snd fit)) by lia.
    assert (A : (fst fit <= cw - pad * 2)%Q)
      by (change 2%Q with (inject_Z 2);
          rewrite <- inject_Z_mult, <- inject_Z_sub, <- Zle_Qle; lia).
    assert (B : (snd fit <= ch - pad * 2)%Q)
      by (change 2%Q with (inject_Z 2);
          rewrite <- inject_Z_mult, <- inject_Z_sub, <- Zle_Qle; lia).
    change (inject_Z 2) with 2%Q in *.
    set (CW := inject_Z cw) in *. set (CH := inject_Z ch) in *.
    set (PAD := inject_Z pad) in *.
    set (FW := inject_Z (fst fit)) in *. set (FH := inject_Z (snd fit)) in *.
    split; [split; reflexivity |].
    unfold Qdiv. change (/ 2)%Q with (1 # 2)%Q. split; split; lra.
  - exists out. split; [exact Hgen | split; [exact Hlen | exact Hall]].
Qed.

Lemma picture_centred_in_padding_witness :
  exists out,
    generateVariants (fun _ _ => 60%Q) sampleUpload sampleHigh = JS.Ok out /\
    length out = 4%nat.
Proof.
  generalize (picture_centred_in_padding (fun _ _ => 60%Q) sampleUpload sampleHigh
                (Image.mk sampleUpload 800 600) eq_refl
                ltac:(cbn; lia) ltac:(cbn; lia)).
  destruct (canvasSize sampleHigh) as [cw ch].
  intros (out & Hgen & Hlen & _). exists out. split; assumption.
Defined.

(** ** Generations in a row *)

Lemma runGenerate_through w s i out :
  img s = Some i ->
  JS.le (remaining s) (JS.Num 0) = false ->
  generateVariants (measureText w) i (options s) = JS.Ok out ->
  setItemFailure w = None ->
  runGenerate (w, s)
    = ((stored w (keyForToday w) (JS.String (JS.add (getOpsUsed w) (JS.Num 1))),
        generated s out (JS.add (getOpsUsed w) (JS.Num 1))),
       JS.Ok tt).
Proof.
  intros Hi Hq Hgen Hfull. rewrite runGenerate_runs, Hi, Hq, Hgen, Hfull.
  reflexivity.
Qed.

Lemma remaining_left s k :
  opsUsed s = JS.Num k -> 0 <= k < 30 ->
  JS.le (remaining s) (JS.Num 0) = false.
Proof.
  intros Hk Hlt. unfold remaining. rewrite Hk, sub_Num by lia.
  cbn [JS.le]. apply Z.leb_gt. lia.
Qed.

Lemma getOpsUsed_decimal w z :
  Z.abs z <= 2 ^ 53 ->
  getOpsUsed (stored w (keyForToday w) (JS.decimal z)) = JS.Num z.
Proof.
  intros Hz. rewrite <- (String_decimal z Hz). apply getOpsUsed_stored, Hz.
Qed.



Lemma generations_S n sys :
  generations (S n) sys = fst (runGenerate (generations n sys)).
Proof. reflexivity. Qed.

(** Where [n] generations in a row lead, up to thirty. *)
Lemma generations_count w s i base n :
  img s = Some i -> loadImage i = JS.Ok base ->
  opsUsed s = JS.Num 0 -> getOpsUsed w = JS.Num 0 -> setItemFailure w = None ->
  (1 <= n <= 30)%nat ->
  exists out,
    length out = 4%nat /\
    generations n (w, s)
      = (stored w (keyForToday w) (JS.decimal (Z.of_nat n)),
         generated s out (JS.Num (Z.of_nat n))).
Proof.
  intros Hi Hload Hk Hn Hfull. induction n as [| n IH]; intros Hle; [lia |].
  cbn [generations].
  assert (Hstep : forall w' s',
            img s' = Some i -> options s' = options s ->
            opsUsed s' = JS.Num (Z.of_nat n) ->
            getOpsUsed w' = JS.Num (Z.of_nat n) ->
            setItemFailure w' = None ->
            stored w' (keyForToday w') (JS.decimal (Z.of_nat (S n)))
              = stored w (keyForToday w) (JS.decimal (Z.of_nat (S n))) ->
            exists out,
              length out = 4%nat /\
              fst (runGenerate (w', s'))
                = (stored w (keyForToday w) (JS.decimal (Z.of_nat (S n))),
                   generated s out (JS.Num (Z.of_nat (S n))))).
  { intros w' s' Hi' Ho' Hk' Hn' Hfull' Hst.
    destruct (generateVariants_four (measureText w') i (options s') base Hload)
      as (out & Hgen & Hlen).
    exists out. split; [exact Hlen |].
    rewrite (runGenerate_through w' s' i out Hi'
               (remaining_left s' _ Hk' ltac:(lia)) Hgen Hfull').
    cbn [fst]. rewrite Hn', add_Num by lia.
    change (JS.String (JS.Num (Z.of_nat n + 1)))
      with (JS.String_of_Z (Z.of_nat n + 1)).
    rewrite String_decimal by lia.
    replace (Z.of_nat n + 1) with (Z.of_nat (S n)) by lia.
    rewrite Hst. unfold generated. rewrite Hi', Ho', Hi. reflexivity. }
  destruct n as [| n].
  - apply (Hstep w s); auto.
  - destruct IH as (out & _ & ->); [lia |].
    apply Hstep.
    + exact Hi.
    + reflexivity.
    + reflexivity.
    + apply getOpsUsed_decimal. lia.
    + exact Hfull.
    + unfold stored, keyForToday.
      cbn [localStorage today now measureText zipFailure setItemFailure effects].
      rewrite insert_insert_eq. reflexivity.
Qed.

(** X4. From a count of 0, with a picture that decodes and a store that
    takes the writes, thirty generations in a row go through, the n-th
    leaving the count n in the store and on the page; the thirty-first
    is refused with the quota message and leaves the count at 30. *)
Theorem thirty_generations_then_blocked w s i base :
  img s = Some i -> loadImage i = JS.Ok base ->
  opsUsed s = JS.Num 0 -> getOpsUsed w = JS.Num 0 -> setItemFailure w = None ->
  (forall n, (1 <= n <= 30)%nat ->
     let sys' := generations n (w, s) in
     error (snd sys') = None /\ length (variants (snd sys')) = 4%nat /\
     opsUsed (snd sys') = JS.Num (Z.of_nat n) /\
     counter sys' = JS.Num (Z.of_nat n)) /\
  (let sys' := generations 31 (w, s) in
   error (snd sys') = Some "Batas 30 operasi/hari tercapai." /\
   opsUsed (snd sys') = JS.Num 30 /\ counter sys' = JS.Num 30).
Proof.
  intros Hi Hload Hk Hn Hfull. split.
  - intros n Hle sys'.
    destruct (generations_count w s i base n Hi Hload Hk Hn Hfull Hle)
      as (out & Hlen & Hrun).
    subst sys'. rewrite Hrun. cbn [snd generated error variants opsUsed].
    split; [reflexivity | split; [exact Hlen | split; [reflexivity |]]].
    unfold counter. cbn [fst]. apply getOpsUsed_decimal. lia.
  - destruct (generations_count w s i base 30 Hi Hload Hk Hn Hfull ltac:(lia))
      as (out & _ & Hrun).
    cbv zeta. rewrite (generations_S 30 (w, s)), Hrun.
    assert (Hq : JS.le (remaining (generated s out (JS.Num (Z.of_nat 30)))) (JS.Num 0)
                 = true).
    { unfold remaining. cbn [generated opsUsed]. rewrite sub_Num by lia. reflexivity. }
    rewrite runGenerate_runs, Hq. cbn [generated img]. rewrite Hi.
    cbn [fst snd reported error opsUsed]. split; [reflexivity |].
    split; [reflexivity |].
    unfold counter. cbn [fst]. apply (getOpsUsed_decimal w 30). lia.
Qed.

Lemma thirty_generations_then_blocked_witness :
  counter (generations 30 (sampleWorld, sampleReady)) = JS.Num 30 /\
  error (snd (generations 31 (sampleWorld, sampleReady)))
    = Some "Batas 30 operasi/hari tercapai.".
Proof.
  destruct (thirty_generations_then_blocked sampleWorld sampleReady sampleUpload
              (Image.mk sampleUpload 800 600)) as [Hgo (Hstop & _)];
    [reflexivity | reflexivity | reflexivity | reflexivity | reflexivity |].
  split; [| exact Hstop].
  destruct (Hgo 30%nat ltac:(lia)) as (_ & _ & _ & Hcount). exact Hcount.
Defined.

(** ** What the handlers leave alone *)

(** X5. No handler takes an item out of the store or touches the item
    of another key than today's: every other key reads after the handler
    as it read before, the keys of the other days among them; and every
    handler but Generate leaves the whole store and the count on the
    page as they were. *)
Theorem store_written_only_today a w s :
  (forall key, key <> keyForToday w ->
     localStorage (fst (fst (perform a (w, s)))) !! key = localStorage w !! key) /\
  (forall d, validDate d -> validDate (today w) -> d <> today w ->
     localStorage (fst (fst (perform a (w, s)))) !! keyFor d
     = localStorage w !! keyFor d) /\
  (forall key, is_Some (localStorage w !! key) ->
     is_Some (localStorage (fst (fst (perform a (w, s)))) !! key)) /\
  (a <> Generate ->
   localStorage (fst (fst (perform a (w, s)))) = localStorage w /\
   opsUsed (snd (fst (perform a (w, s)))) = opsUsed s).
Proof.
  assert (Hcases :
    localStorage (fst (fst (perform a (w, s)))) = localStorage w \/
    exists v, localStorage (fst (fst (perform a (w, s))))
              = <[keyForToday w := v]> (localStorage w)).
  { assert (Hdec : a = Generate \/ a <> Generate)
      by (destruct a; (left; reflexivity) || (right; discriminate)).
    destruct Hdec as [-> | Ha].
    - cbn [perform].
      destruct (runGenerate_cases w s)
        as [[(Hstore & _) _] | (i & out & _ & _ & _ & _ & ->)];
        [left; exact Hstore | right; eexists; reflexivity].
    - left. apply (perform_sameCounter a (w, s) Ha). }
  assert (Hother : forall key, key <> keyForToday w ->
            localStorage (fst (fst (perform a (w, s)))) !! key = localStorage w !! key).
  { intros key Hkey. destruct Hcases as [-> | [v ->]]; [reflexivity |].
    apply lookup_insert_ne. congruence. }
  split; [exact Hother |]. split; [| split].
  - intros d Hd Hw Hne. apply Hother. unfold keyForToday. intros Hkey.
    apply Hne. apply keyFor_inj; assumption.
  - intros key Hsome. destruct Hcases as [-> | [v ->]]; [exact Hsome |].
    destruct (decide (key = keyForToday w)) as [-> | Hkey].
    + rewrite lookup_insert_eq. eauto.
    + rewrite lookup_insert_ne by congruence. exact Hsome.
  - intros Ha. destruct (perform_sameCounter a (w, s) Ha) as (Hstore & _ & Hops).
    split; assumption.
Qed.



Lemma all_upscale2x_total l :
  (exists ups, all upscale2x l = JS.Ok ups /\ length ups = length l) \/
  (exists e, all upscale2x l = JS.Throw e).
Proof.
  induction l as [| v l IH]; [left; exists []; split; reflexivity |].
  cbn [all].
  destruct (loadImage v) as [i | e |] eqn:Hv.
  - rewrite (upscale2x_ok v i Hv). cbn [JS.bind].
    destruct IH as [(ups & -> & Hlen) | [e ->]].
    + left. eexists. split; [reflexivity |]. cbn [length]. rewrite Hlen. reflexivity.
    + right. eexists. reflexivity.
  - right. exists e. unfold upscale2x. rewrite Hv. reflexivity.
  - destruct v as [m [[w h] |] | w h ops]; discriminate.
Qed.

(** X7. Whatever the state and the browser, the three handlers with a
    [try] return without an exception, and leave the page not busy:
    every error is caught and the [finally] always runs. *)
Theorem handlers_settle w s :
  Forall (fun h : M unit =>
            snd (h (w, s)) = JS.Ok tt /\ busy (snd (fst (h (w, s)))) = false)
         [runGenerate; doUpscale; exportAll].
Proof.
  repeat constructor.
  - rewrite runGenerate_runs. destruct (img s) as [d |]; [| reflexivity].
    destruct (JS.le _ _); [reflexivity |].
    destruct (generateVariants_total (measureText w) d (options s))
      as [[out ->] | ->]; [| reflexivity].
    destruct (setItemFailure w); reflexivity.
  - rewrite runGenerate_runs. destruct (img s) as [d |]; [| reflexivity].
    destruct (JS.le _ _); [reflexivity |].
    destruct (generateVariants_total (measureText w) d (options s))
      as [[out ->] | ->]; [| reflexivity].
    destruct (setItemFailure w); reflexivity.
  - destruct w, s as [i b er o v c n]. unfold doUpscale, upscaleTry. run_handler.
    destruct (all_upscale2x_total v) as [(ups & -> & _) | [e ->]]; reflexivity.
  - destruct w, s as [i b er o v c n]. unfold doUpscale, upscaleTry. run_handler.
    destruct (all_upscale2x_total v) as [(ups & -> & _) | [e ->]]; reflexivity.
  - rewrite exportAll_runs. destruct (zipFailure w); reflexivity.
  - rewrite exportAll_runs. destruct (zipFailure w); reflexivity.
Qed.

(** X8. A file of an image type that cannot be read: [onUpload] ends
    with the rejection of [fileToDataUrl], which nothing catches; the
    error that was shown is cleared and none is shown in its place, and
    the picture, the variants, the copies and the count stay as they
    were. *)
Theorem upload_unreadable_is_silent w s f :
  JS.startsWith "image/" (type f) = true -> readable f = false ->
  onUpload (Some f) (w, s)
    = ((w, mkState (img s) (busy s) None (options s) (variants s) (copies s)
                   (opsUsed s)),
       JS.Throw (JS.mkError "Gagal membaca file.")).
Proof.
  intros Htype Hread. destruct w, s. unfold onUpload, fileToDataUrl.
  rewrite Htype, Hread. reflexivity.
Qed.

Lemma upload_unreadable_is_silent_witness :
  onUpload (Some sampleUnreadable) (sampleWorld, sampleBrokenVariant)
    = ((sampleWorld, sampleBrokenVariant),
       JS.Throw (JS.mkError "Gagal membaca file.")).
Proof.
  apply (upload_unreadable_is_silent sampleWorld sampleBrokenVariant
           sampleUnreadable); reflexivity.
Defined.

(** ** Upscaling again and again *)




(** ** Export *)

Lemma pngName_inj i j :
  0 <= i < 2 ^ 53 -> 0 <= j < 2 ^ 53 -> pngName i = pngName j -> i = j.
Proof.
  intros Hi Hj H. unfold pngName in H.
  apply String.app_inj in H.
  apply append_inj_tail in H as [H _]; [| reflexivity].
  apply String_of_Z_inj in H; lia.
Qed.

Lemma imap_names (l : list DataUrl) :
  map fst (imap (fun i v => (pngName (Z.of_nat i), v)) l)
  = imap (fun i _ => pngName (Z.of_nat i)) l.
Proof.
  change (map fst (imap (fun i v => (pngName (Z.of_nat i), v)) l))
    with (fst <$> imap (fun i v => (pngName (Z.of_nat i), v)) l).
  rewrite fmap_imap. reflexivity.
Qed.

Lemma names_NoDup (l : list DataUrl) :
  Z.of_nat (length l) < 2 ^ 53 ->
  NoDup (imap (fun i _ => pngName (Z.of_nat i)) l).
Proof.
  intros Hlen. apply NoDup_alt. intros i j name Hi Hj.
  rewrite list_lookup_imap in Hi, Hj.
  destruct (l !! i) as [vi |] eqn:Hvi; [| discriminate].
  destruct (l !! j) as [vj |] eqn:Hvj; [| discriminate].
  apply lookup_lt_Some in Hvi, Hvj.
  cbn in Hi, Hj. injection Hi as Hi. injection Hj as Hj.
  assert (H : Z.of_nat i = Z.of_nat j)
    by (apply pngName_inj; [lia | lia | congruence]).
  lia.
Qed.

Lemma concat_delivered (name : nat -> string) (l : list DataUrl) :
  concat (map delivered (imap (fun i v => Download (DataBlob v) (name i)) l))
  = imap (fun i v => (name i, v)) l.
Proof.
  revert name. induction l as [| v l IH]; intros name; [reflexivity |].
  cbn [imap map concat delivered app]. f_equal.
  apply (IH (fun i => name (S i))).
Qed.

Lemma added_andThen w es : added w (andThen w es) = es.
Proof.
  unfold added, andThen. cbn [effects]. apply drop_app_length.
Qed.

(** X10. Whether the ZIP path works or fails, [exportAll] hands over the
    same named pictures: every variant once, in order, the i-th (from 0)
    named productpro_(i+1).png; no two names are the same; the ZIP's own
    name carries the clock; and the state cells are left as they were,
    not busy. *)
Theorem export_hands_over_every_variant w s :
  Z.of_nat (length (variants s)) < 2 ^ 53 ->
  let sys' := fst (exportAll (w, s)) in
  concat (map delivered (added w (fst sys')))
    = imap (fun i v => (pngName (Z.of_nat i), v)) (variants s) /\
  NoDup (map fst (concat (map delivered (added w (fst sys'))))) /\
  (zipFailure w = None ->
   exists files,
     added w (fst sys')
     = [Download (ZipBlob files)
                 ("ProductPro_" +:+ JS.String_of_Z (now w) +:+ ".zip")]) /\
  snd sys' = idle s.
Proof.
  intros Hlen. cbv zeta. rewrite exportAll_runs.
  destruct (zipFailure w) as [e |]; cbn [fst snd]; rewrite !added_andThen.
  - assert (Hlist : concat (map delivered (fallbackEffects s e))
                    = imap (fun i v => (pngName (Z.of_nat i), v)) (variants s)).
    { unfold fallbackEffects. cbn [map delivered concat app].
      apply (concat_delivered (fun i => pngName (Z.of_nat i))). }
    rewrite Hlist, imap_names.
    split; [reflexivity | split; [apply names_NoDup, Hlen |]].
    split; [discriminate | reflexivity].
  - cbn [map delivered concat]. rewrite app_nil_r, imap_names.
    split; [reflexivity | split; [apply names_NoDup, Hlen |]].
    split; [eauto | reflexivity].
Qed.

Lemma export_hands_over_every_variant_witness :
  concat (map delivered
            (added sampleOffline
                   (fst (fst (exportAll (sampleOffline, sampleWithVariant))))))
    = [("productpro_1.png", CanvasPng 1024 1024 [])].
Proof.
  apply (export_hands_over_every_variant sampleOffline sampleWithVariant).
  cbn. lia.
Defined.

(** ** Colours *)

Lemma allAscii_all c : In c allAscii.
Proof.
  unfold allAscii. apply List.in_map_iff. exists (nat_of_ascii c).
  split; [apply ascii_nat_embedding |].
  apply List.in_seq. pose proof (nat_ascii_bounded c). lia.
Qed.

Lemma eqb_Num v z : JS.eqb v (JS.Num z) = true -> v = JS.Num z.
Proof.
  destruct v; cbn [JS.eqb]; try discriminate.
  intros H. apply Z.eqb_eq in H. congruence.
Qed.

Lemma parseInt16_digits c1 c2 v :
  twoHex c1 c2 = Some v ->
  JS.parseInt16 (String c1 (String c2 EmptyString)) = JS.Num v /\ 0 <= v <= 255.
Proof.
  intros Hv.
  assert (Hall : hexChecks = true) by (vm_compute; reflexivity).
  unfold hexChecks in Hall. rewrite List.forallb_forall in Hall.
  specialize (Hall c1 (allAscii_all c1)).
  unfold twoHex in Hv. destruct (JS.hexDigit c1) as [a |] eqn:H1; [| discriminate].
  apply andb_true_iff in Hall as [_ Hall].
  rewrite List.forallb_forall in Hall. specialize (Hall c2 (allAscii_all c2)).
  unfold twoHex in Hall. rewrite H1 in Hall.
  destruct (JS.hexDigit c2) as [b |]; [| discriminate].
  injection Hv as <-.
  apply andb_true_iff in Hall as [Hall Hhi]. apply andb_true_iff in Hall as [Heq Hlo].
  apply eqb_Num in Heq. apply Z.leb_le in Hlo, Hhi. auto.
Qed.

Lemma parseInt16_digit c a :
  JS.hexDigit c = Some a -> JS.parseInt16 (String c EmptyString) = JS.Num a.
Proof.
  intros Ha.
  assert (Hall : hexChecks = true) by (vm_compute; reflexivity).
  unfold hexChecks in Hall. rewrite List.forallb_forall in Hall.
  specialize (Hall c (allAscii_all c)). rewrite Ha in Hall.
  apply andb_true_iff in Hall as [Heq _]. apply eqb_Num, Heq.
Qed.

(** X11. A colour written as "#" and six hexadecimal digits, of either
    case: [hexWithAlpha] returns the rgba colour whose red, green and
    blue are the values of the three pairs of digits, each from 0 to
    255, with the alpha it was given. *)
Theorem hexWithAlpha_six_digits c1 c2 c3 c4 c5 c6 r g b a :
  twoHex c1 c2 = Some r -> twoHex c3 c4 = Some g -> twoHex c5 c6 = Some b ->
  hexWithAlpha
    (String "#" (String c1 (String c2 (String c3 (String c4 (String c5
       (String c6 EmptyString))))))) a
    = Rgba (JS.Num r) (JS.Num g) (JS.Num b) a /\
  (0 <= r <= 255 /\ 0 <= g <= 255 /\ 0 <= b <= 255).
Proof.
  intros Hr Hg Hb.
  destruct (parseInt16_digits c1 c2 r Hr) as [Er Br].
  destruct (parseInt16_digits c3 c4 g Hg) as [Eg Bg].
  destruct (parseInt16_digits c5 c6 b Hb) as [Eb Bb].
  split; [| auto].
  unfold hexWithAlpha. cbn [dropHash Ascii.eqb Bool.eqb String.substring].
  rewrite Er, Eg, Eb. reflexivity.
Qed.

Lemma hexWithAlpha_six_digits_witness :
  hexWithAlpha "#ffffff" (lit 0.7)
    = Rgba (JS.Num 255) (JS.Num 255) (JS.Num 255) (lit 0.7).
Proof.
  apply (hexWithAlpha_six_digits "f" "f" "f" "f" "f" "f" 255 255 255);
    reflexivity.
Defined.

(** X12. The short form of three digits is not spread out: of "#" and
    three hexadecimal digits, the first two are read as red, the third
    alone as green, and blue, read from nothing, is [NaN]. *)
Theorem hexWithAlpha_three_digits c1 c2 c3 r g a :
  twoHex c1 c2 = Some r -> JS.hexDigit c3 = Some g ->
  hexWithAlpha (String "#" (String c1 (String c2 (String c3 EmptyString)))) a
    = Rgba (JS.Num r) (JS.Num g) JS.NaN a.
Proof.
  intros Hr Hg.
  destruct (parseInt16_digits c1 c2 r Hr) as [Er _].
  unfold hexWithAlpha. cbn [dropHash Ascii.eqb Bool.eqb String.substring].
  rewrite Er, (parseInt16_digit c3 g Hg). reflexivity.
Qed.

Lemma hexWithAlpha_three_digits_witness :
  hexWithAlpha "#fff" (lit 0.7) = Rgba (JS.Num 255) (JS.Num 15) JS.NaN (lit 0.7).
Proof.
  apply (hexWithAlpha_three_digits "f" "f" "f" 255 15); reflexivity.
Defined.

(** ** What the options do not change *)

(** X13. The custom prompt is read by nothing that generates: with
    another custom prompt, [generateVariants] draws the same pictures
    and [buildCopies] writes the same copies. *)
Theorem customPrompt_changes_nothing mt src opts p :
  generateVariants mt src (withPrompt opts p) = generateVariants mt src opts /\
  buildCopies (withPrompt opts p) = buildCopies opts /\
  buildPresetFilters (withPrompt opts p) = buildPresetFilters opts.
Proof. destruct opts. repeat split; reflexivity. Qed.

(** ** A count that is not a number *)

(** X14. When the text stored for the day is not a number, the count
    is [NaN] on the page and in the store, and the quota guard, a
    comparison with [NaN], never refuses: with a picture that decodes
    and a store that takes the write, [runGenerate] goes through, and
    stores and holds [NaN] again. *)
Theorem nan_count_never_blocks w s i base :
  img s = Some i -> loadImage i = JS.Ok base ->
  opsUsed s = JS.NaN -> getOpsUsed w = JS.NaN -> setItemFailure w = None ->
  exists out,
    length out = 4%nat /\
    runGenerate (w, s)
      = ((stored w (keyForToday w) "NaN", generated s out JS.NaN), JS.Ok tt) /\
    opsUsed (snd (fst (runGenerate (w, s)))) = JS.NaN /\
    counter (fst (runGenerate (w, s))) = JS.NaN.
Proof.
  intros Hi Hload Hk Hn Hfull.
  destruct (generateVariants_four (measureText w) i (options s) base Hload)
    as (out & Hgen & Hlen).
  assert (Hq : JS.le (remaining s) (JS.Num 0) = false)
    by (unfold remaining; rewrite Hk; reflexivity).
  exists out. split; [exact Hlen |].
  rewrite (runGenerate_through w s i out Hi Hq Hgen Hfull), Hn.
  cbn [JS.add JS.String fst snd generated opsUsed].
  split; [reflexivity | split; [reflexivity |]].
  unfold counter, getOpsUsed, getItemOr0, keyForToday, stored.
  cbn [fst localStorage today]. rewrite lookup_insert_eq. reflexivity.
Qed.

Lemma nan_count_never_blocks_witness :
  opsUsed (mount sampleSpoilt) = JS.NaN /\
  counter (fst (runGenerate (sampleSpoilt, sampleSpoiltPage))) = JS.NaN /\
  error (snd (fst (runGenerate (sampleSpoilt, sampleSpoiltPage)))) = None.
Proof.
  split; [reflexivity |].
  destruct (nan_count_never_blocks sampleSpoilt sampleSpoiltPage sampleUpload
              (Image.mk sampleUpload 800 600))
    as (out & _ & Hrun & _ & Hcount);
    [reflexivity | reflexivity | reflexivity | reflexivity | reflexivity |].
  split; [exact Hcount |]. rewrite Hrun. reflexivity.
Defined.
